(** * Spenden-Tracker: the transaction store, its totals and the list filters

    A shallow embedding of [src/App.js]: the [DonationProvider] context
    (lines 70-152) with its AsyncStorage persistence, and the
    [filteredTransactions] projections of the income and expense screens
    (lines 799-808 and 875-884); further the category registry (lines
    43-65), the amount formatter [eur] (lines 155-159), the save handlers
    of the two modals, the delete dialog, and what the screens derive from
    the collection.

    Conventions of the embedding.
    - A JavaScript number is an IEEE-754 binary64 value, a primitive
      [float], added and subtracted with the primitive operations.  The
      field [amount] holds a number, or [null] once a number that is not
      finite has been written to storage and read back.
    - [id] is the integer [Date.now()] handed out at creation, a [Z].
    - [date] is stored as an ISO-8601 string and only ever used through
      [new Date(t.date)]; the record keeps the time value of that date
      (milliseconds since the epoch) as a [Z].
    - [note] may be missing ([None]) or a string, possibly empty.
    - An [async] function is a state transformer that ends fulfilled or
      rejected; the state it leaves behind survives a rejection, as React
      state and the device storage do.
    - Commands run one after the other, each on the state the previous one
      left: the provider functions read [transactions] as of the render in
      which they were created, and the screens issue one action at a time.
    - Definitions named [spec_...] are written from the specification's
      words and are compared with the code; all others follow the source. *)

From Stdlib Require Import List ZArith String Ascii Bool Lia.
From Stdlib Require Import Permutation Sorted.
From Stdlib Require Import PrimFloat FloatOps SpecFloat FloatAxioms.
From Stdlib Require Import DecimalString DecimalN.
Import ListNotations.

Local Open Scope string_scope.
Local Open Scope list_scope.
Local Open Scope Z_scope.

(** ** Data model *)

(** What the field [amount] can hold: a number, or [null]. *)
Inductive Amount : Type :=
| Num (x : float)
| Null.
Coercion Num : float >-> Amount.

(** [ToNumber]: in [s + t.amount] a [null] counts as [+0]. *)
Definition toNumber (a : Amount) : float :=
  match a with
  | Num x => x
  | Null => 0%float
  end.

Record Transaction : Type := mkTransaction {
  id : Z;
  amount : Amount;
  category : string;
  isIncome : bool;
  date : Z;
  note : option string;
  isPinned : bool
}.

(** [{ ...t, id: i }] *)
Definition with_id (t : Transaction) (i : Z) : Transaction :=
  {| id := i; amount := amount t; category := category t;
     isIncome := isIncome t; date := date t; note := note t;
     isPinned := isPinned t |}.

(** [{ ...t, id: i, isPinned: p }] *)
Definition with_id_pinned (t : Transaction) (i : Z) (p : bool) : Transaction :=
  {| id := i; amount := amount t; category := category t;
     isIncome := isIncome t; date := date t; note := note t;
     isPinned := p |}.

(** ** [Array.prototype.sort] with a comparator

    The sort is stable; for a consistent comparator its result is the one
    stable arrangement in which no element is preceded by one that the
    comparator puts strictly after it.  Insertion from the right computes
    that arrangement: [x] goes in front of the first [y] with
    [cmp x y <= 0]. *)

Section ArraySort.
Context {A : Type}.
Variable cmp : A -> A -> Z.

Fixpoint sort_insert (x : A) (l : list A) : list A :=
  match l with
  | [] => [x]
  | y :: l' => if cmp x y <=? 0 then x :: y :: l' else y :: sort_insert x l'
  end.

Fixpoint array_sort (l : list A) : list A :=
  match l with
  | [] => []
  | x :: l' => sort_insert x (array_sort l')
  end.
End ArraySort.

(** [(a, b) => new Date(b.date) - new Date(a.date)] *)
Definition byDateDesc (a b : Transaction) : Z := date b - date a.

Definition sortByDateDesc (l : list Transaction) : list Transaction :=
  array_sort byDateDesc l.

(** Most recent first. *)
Definition newer_or_same (a b : Transaction) : Prop := date b <= date a.

Definition date_desc (l : list Transaction) : Prop :=
  StronglySorted newer_or_same l.

(** ** AsyncStorage and the console *)

(** JSON white space, and whether a text opens a JSON array: its first
    character after white space is a bracket. *)
Definition isJsonSpace (c : ascii) : bool :=
  let n := nat_of_ascii c in
  (Nat.eqb n 32 || Nat.eqb n 9 || Nat.eqb n 10 || Nat.eqb n 13)%bool.

Fixpoint opensArray (s : string) : bool :=
  match s with
  | EmptyString => false
  | String c s' => if isJsonSpace c then opensArray s' else Ascii.eqb c "["
  end.

(** What [JSON.stringify] makes of an amount and [JSON.parse] reads back: a
    number that is not finite is written as [null], [-0] is written as [0],
    every other number is read back as it was. *)
Definition jsonAmount (a : Amount) : Amount :=
  match a with
  | Num x =>
      if PrimFloat.is_finite x
      then (if PrimFloat.is_zero x then Num 0%float else Num x)
      else Null
  | Null => Null
  end.

(** [JSON.parse(JSON.stringify(t))]: only the amount can change. *)
Definition readBack (t : Transaction) : Transaction :=
  {| id := id t; amount := jsonAmount (amount t); category := category t;
     isIncome := isIncome t; date := date t; note := note t;
     isPinned := isPinned t |}.

(** What a key of the device storage holds.  [Json l] is the text
    [JSON.stringify(l)] of a list of transactions.  [Text s] is the string
    [s], which does not open a JSON array: on it [JSON.parse] throws, or
    returns a value that is no array and on which [.sort] throws.  A stored
    array of anything but transactions is outside the model. *)
Inductive value : Type :=
| Text (s : string) (plain : opensArray s = false)
| Json (l : list Transaction).

Definition Storage : Type := string -> option value.

Definition emptyStorage : Storage := fun _ => None.

Definition store (k : string) (v : value) (d : Storage) : Storage :=
  fun k' => if String.eqb k' k then Some v else d k'.

(** [ParseFailure] is the [ParseFailure] of [JSON.parse], or the
    [TypeError] of [.sort] on a parsed value that is no array. *)
Inductive error : Type :=
| StorageFailure (key : string)
| ParseFailure.

Record State : Type := mkState {
  transactions : list Transaction;
  isDarkMode : bool;
  storage : Storage;
  console : list (string * error)
}.

(** [useState([])], [useState(false)], nothing logged yet. *)
Definition initialState (d : Storage) : State :=
  {| transactions := []; isDarkMode := false; storage := d; console := [] |}.

(** ** Async functions *)

Inductive Settled (A : Type) : Type :=
| Fulfilled (a : A)
| Rejected (e : error).
Arguments Fulfilled {A} a.
Arguments Rejected {A} e.

Definition Async (A : Type) : Type := State -> Settled A * State.

Definition ret {A} (a : A) : Async A := fun st => (Fulfilled a, st).

Definition throw {A} (e : error) : Async A := fun st => (Rejected e, st).

Definition bind {A B} (m : Async A) (k : A -> Async B) : Async B :=
  fun st =>
    match m st with
    | (Fulfilled a, st') => k a st'
    | (Rejected e, st') => (Rejected e, st')
    end.

Definition try_catch {A} (body : Async A) (handler : error -> Async A) : Async A :=
  fun st =>
    match body st with
    | (Fulfilled a, st') => (Fulfilled a, st')
    | (Rejected e, st') => handler e st'
    end.

Declare Scope async_scope.
Delimit Scope async_scope with async.
Notation "x <- m ;; k" := (bind m (fun x => k))
  (at level 61, m at next level, right associativity) : async_scope.
Notation "m ;; k" := (bind m (fun _ => k))
  (at level 61, right associativity) : async_scope.
Local Open Scope async_scope.

Definition exec {A} (m : Async A) (st : State) : State := snd (m st).
Definition outcome {A} (m : Async A) (st : State) : Settled A := fst (m st).

(** State accessors of the provider. *)
Definition readTransactions : Async (list Transaction) :=
  fun st => (Fulfilled (transactions st), st).

Definition readIsDarkMode : Async bool :=
  fun st => (Fulfilled (isDarkMode st), st).

Definition setTransactions (l : list Transaction) : Async unit :=
  fun st => (Fulfilled tt,
             {| transactions := l; isDarkMode := isDarkMode st;
                storage := storage st; console := console st |}).

Definition setIsDarkMode (b : bool) : Async unit :=
  fun st => (Fulfilled tt,
             {| transactions := transactions st; isDarkMode := b;
                storage := storage st; console := console st |}).

Definition console_error (msg : string) (e : error) : Async unit :=
  fun st => (Fulfilled tt,
             {| transactions := transactions st; isDarkMode := isDarkMode st;
                storage := storage st; console := console st ++ [(msg, e)] |}).

(** The device decides whether a storage request is honoured: [dev] is
    [true] when it is, [false] when the returned promise rejects. *)
Definition getItem (dev : bool) (k : string) : Async (option value) :=
  fun st => if dev then (Fulfilled (storage st k), st)
            else (Rejected (StorageFailure k), st).

Definition setItem (dev : bool) (k : string) (v : value) : Async unit :=
  fun st => if dev
            then (Fulfilled tt,
                  {| transactions := transactions st; isDarkMode := isDarkMode st;
                     storage := store k v (storage st); console := console st |})
            else (Rejected (StorageFailure k), st).

(** [JSON.parse(stored)], with the [.sort] that follows it in so far as it
    throws on what is no array. *)
Definition JSON_parse (v : value) : Async (list Transaction) :=
  match v with
  | Json l => ret (map readBack l)
  | Text _ _ => throw ParseFailure
  end.

(** JavaScript truthiness of a stored string: only the empty one is falsy. *)
Definition truthy (v : value) : bool :=
  match v with
  | Text s _ => negb (String.eqb s "")
  | Json _ => true
  end.

(** ** The provider: [DonationProvider] *)

(** [loadTransactions] (lines 79-89). *)
Definition loadTransactions (dev : bool) : Async unit :=
  try_catch
    (stored <- getItem dev "transactions" ;;
     match stored with
     | Some v =>
         if truthy v
         then parsed <- JSON_parse v ;;
              setTransactions (sortByDateDesc parsed)
         else ret tt
     | None => ret tt
     end)
    (fun e => console_error "Failed to load transactions" e).

(** [saveTransactions] (lines 91-99): the state is set after the awaited
    write, inside the same [try]. *)
Definition saveTransactions (dev : bool) (list : list Transaction) : Async unit :=
  try_catch
    (let sorted := sortByDateDesc list in
     setItem dev "transactions" (Json sorted) ;;
     setTransactions sorted)
    (fun e => console_error "Failed to save transactions" e).

(** The lists the three mutating functions build before saving. *)
Definition withId (now : Z) (t : Transaction) : Transaction :=
  with_id_pinned t now false.

Definition updated (i : Z) (updatedTransaction : Transaction)
    (ts : list Transaction) : list Transaction :=
  map (fun t => if id t =? i then with_id updatedTransaction i else t) ts.

Definition filtered (i : Z) (ts : list Transaction) : list Transaction :=
  filter (fun t => negb (id t =? i)) ts.

(** [addTransaction] (lines 101-104); [now] is the value of [Date.now()]. *)
Definition addTransaction (dev : bool) (now : Z) (t : Transaction) : Async unit :=
  ts <- readTransactions ;;
  saveTransactions dev (withId now t :: ts).

(** [updateTransaction] (lines 106-109). *)
Definition updateTransaction (dev : bool) (i : Z) (updatedTransaction : Transaction)
    : Async unit :=
  ts <- readTransactions ;;
  saveTransactions dev (updated i updatedTransaction ts).

(** [deleteTransaction] (lines 111-114). *)
Definition deleteTransaction (dev : bool) (i : Z) : Async unit :=
  ts <- readTransactions ;;
  saveTransactions dev (filtered i ts).

(** [toggleTheme] (lines 116-120): no [try] around the write. *)
Definition toggleTheme (dev : bool) : Async unit :=
  cur <- readIsDarkMode ;;
  let next := negb cur in
  setIsDarkMode next ;;
  setItem dev "theme" (if next then Text "dark" eq_refl else Text "light" eq_refl).

Definition is_dark (v : value) : bool :=
  match v with
  | Text s _ => String.eqb s "dark"
  | Json _ => false
  end.

(** [loadTheme] (lines 122-129). *)
Definition loadTheme (dev : bool) : Async unit :=
  try_catch
    (theme <- getItem dev "theme" ;;
     match theme with
     | Some v => if truthy v then setIsDarkMode (is_dark v) else ret tt
     | None => ret tt
     end)
    (fun e => console_error "Failed to load theme" e).

(** Derived values of the provider (lines 131-133). *)
Definition totalIncome (ts : list Transaction) : float :=
  fold_left (fun s t => (s + toNumber (amount t))%float)
            (filter (fun t => isIncome t) ts) 0%float.

Definition totalExpense (ts : list Transaction) : float :=
  fold_left (fun s t => (s + toNumber (amount t))%float)
            (filter (fun t => negb (isIncome t)) ts) 0%float.

Definition balance (ts : list Transaction) : float :=
  (totalIncome ts - totalExpense ts)%float.

(** ** Commands of a session *)

Inductive Mutation : Type :=
| Add (now : Z) (t : Transaction)
| Update (i : Z) (fields : Transaction)
| Delete (i : Z).

Definition perform (dev : bool) (m : Mutation) : Async unit :=
  match m with
  | Add now t => addTransaction dev now t
  | Update i u => updateTransaction dev i u
  | Delete i => deleteTransaction dev i
  end.

(** The list a mutation hands to [saveTransactions]. *)
Definition attempted (m : Mutation) (ts : list Transaction) : list Transaction :=
  match m with
  | Add now t => withId now t :: ts
  | Update i u => updated i u ts
  | Delete i => filtered i ts
  end.

Inductive Command : Type :=
| Mutate (m : Mutation)
| LoadTransactions
| LoadTheme
| ToggleTheme.

Definition run (dev : bool) (c : Command) : Async unit :=
  match c with
  | Mutate m => perform dev m
  | LoadTransactions => loadTransactions dev
  | LoadTheme => loadTheme dev
  | ToggleTheme => toggleTheme dev
  end.

(** States the application can be in: a first start on an empty device,
    any command with any answer of the device, and a restart that keeps the
    device storage and nothing else. *)
Inductive reachable : State -> Prop :=
| reach_install : reachable (initialState emptyStorage)
| reach_run st dev c : reachable st -> reachable (exec (run dev c) st)
| reach_restart st : reachable st -> reachable (initialState (storage st)).

(** The collection held under the key ['transactions'], if any. *)
Definition persisted (st : State) : option (list Transaction) :=
  match storage st "transactions" with
  | Some (Json l) => Some l
  | _ => None
  end.

(** The string held under the key ['theme'], if any. *)
Definition persistedTheme (st : State) : option string :=
  match storage st "theme" with
  | Some (Text s _) => Some s
  | _ => None
  end.

(** ** Strings *)

(** [s.startsWith(q)] *)
Fixpoint startsWith (s q : string) : bool :=
  match q, s with
  | EmptyString, _ => true
  | String _ _, EmptyString => false
  | String b q', String a s' => Ascii.eqb a b && startsWith s' q'
  end.

(** [s.includes(q)] *)
Fixpoint includes (s q : string) : bool :=
  startsWith s q ||
  match s with
  | EmptyString => false
  | String _ s' => includes s' q
  end.

(** [arr.includes(x)] on an array of strings. *)
Definition array_includes (arr : list string) (x : string) : bool :=
  existsb (String.eqb x) arr.

(** Lower-casing of the ASCII letters, the instance used in the examples. *)
Definition ascii_lower (c : ascii) : ascii :=
  let n := nat_of_ascii c in
  if (Nat.leb 65 n && Nat.leb n 90)%bool then ascii_of_nat (n + 32) else c.

Fixpoint asciiToLowerCase (s : string) : string :=
  match s with
  | EmptyString => EmptyString
  | String c s' => String (ascii_lower c) (asciiToLowerCase s')
  end.

(** ** The filters of the income and expense screens *)

Section Screens.
(** [String.prototype.toLowerCase], kept abstract. *)
Variable toLowerCase : string -> string.

(** [selectedCategories.length === 0 || selectedCategories.includes(t.category)] *)
Definition matchesCategory (selectedCategories : list string) (t : Transaction) : bool :=
  Nat.eqb (List.length selectedCategories) 0
  || array_includes selectedCategories (category t).

(** [searchText === '' || t.category.toLowerCase().includes(...) ||
     (t.note && t.note.toLowerCase().includes(...))] *)
Definition matchesSearch (searchText : string) (t : Transaction) : bool :=
  String.eqb searchText ""
  || includes (toLowerCase (category t)) (toLowerCase searchText)
  || match note t with
     | Some n => negb (String.eqb n "")
                 && includes (toLowerCase n) (toLowerCase searchText)
     | None => false
     end.

(** The first [.filter]: [t.isIncome] on the income screen ([kind = true]),
    [!t.isIncome] on the expense screen ([kind = false]). *)
Definition ofKind (kind : bool) (t : Transaction) : bool :=
  if kind then isIncome t else negb (isIncome t).

Definition filteredTransactions (kind : bool) (selectedCategories : list string)
    (searchText : string) (ts : list Transaction) : list Transaction :=
  filter (fun t => matchesCategory selectedCategories t && matchesSearch searchText t)
         (filter (ofKind kind) ts).
End Screens.

(** ** The totals as the specification words them *)

(** "Summing [amount] over all transactions with [isIncome = kind]": one
    pass over the whole collection, from [0], in which a transaction
    contributes its amount when its kind is the requested one. *)
Definition spec_sum_of_kind (kind : bool) (ts : list Transaction) : float :=
  fold_left (fun s t => if Bool.eqb (isIncome t) kind
                        then (s + toNumber (amount t))%float else s)
            ts 0%float.

(** ** The view as the specification words it *)

Section SpecView.
Variable toLowerCase : string -> string.

(** "[q] is a case-insensitive substring of [s]". *)
Definition spec_ci_substring (q s : string) : Prop :=
  exists a b, toLowerCase s = (a ++ toLowerCase q ++ b)%string.

(** The transactions the specification lets through: of the requested kind,
    and of a selected category unless none is selected, and matching the
    search text unless it is empty. *)
Definition spec_in_view (kind : bool) (selected : list string) (q : string)
    (t : Transaction) : Prop :=
  isIncome t = kind
  /\ (selected = [] \/ In (category t) selected)
  /\ (q = ""
      \/ spec_ci_substring q (category t)
      \/ exists n, note t = Some n /\ spec_ci_substring q n).
End SpecView.

(** ** Model vocabulary *)

(** What a refused [saveTransactions] writes to the console. *)
Definition saveFailure : string * error :=
  ("Failed to save transactions", StorageFailure "transactions").

(** The store's order discipline: memory and device both date-descending. *)
Definition well_kept (st : State) : Prop :=
  date_desc (transactions st)
  /\ forall l, persisted st = Some l -> date_desc l.

(** ** Sample data *)

Definition donation : Transaction :=
  {| id := 0; amount := 50%float; category := "GoFundMe"; isIncome := true;
     date := 1700000000000; note := Some ""; isPinned := false |}.

Definition transfer : Transaction :=
  {| id := 0; amount := 20%float; category := "Bargeld"; isIncome := false;
     date := 1700086400000; note := Some "Anlass Geburtstag"; isPinned := false |}.

Definition freshInstall : State := initialState emptyStorage.

(** Two accepted Adds on a fresh install. *)
Definition twoEntries : State :=
  exec (addTransaction true 1700000000456 transfer)
       (exec (addTransaction true 1700000000123 donation) freshInstall).

(** A field set that breaks every constraint of the data model: a negative
    amount, a category of neither registry, and the other kind. *)
Definition badFields : Transaction :=
  {| id := 7; amount := (-5)%float; category := "???"; isIncome := false;
     date := 1700000000000; note := None; isPinned := true |}.

Definition gift (a : float) : Transaction :=
  {| id := 0; amount := a; category := "Allgemeine Spenden"; isIncome := true;
     date := 1700000000000; note := None; isPinned := false |}.

Definition sampleList : list Transaction :=
  [ withId 3 transfer;
    withId 2 {| id := 0; amount := 12.5%float; category := "Allgemeine Spenden";
                isIncome := true; date := 1700050000000;
                note := Some "Jahres-ANLASS"; isPinned := false |};
    withId 1 donation ].

Definition totalsOf (st : State) : float * float * float :=
  (totalIncome (transactions st), totalExpense (transactions st),
   balance (transactions st)).

(** ** Start of the application *)

(** The mount effect of the provider (lines 74-77) starts both loads; they
    touch different keys and different pieces of state. *)
Definition startup (devTransactions devTheme : bool) : Async unit :=
  loadTransactions devTransactions ;;
  loadTheme devTheme.

(** A restart: React state is back at its initial values, the device
    storage is what it was, and the mount effect runs. *)
Definition restart (devTransactions devTheme : bool) (st : State) : State :=
  exec (startup devTransactions devTheme) (initialState (storage st)).

(** Memory and device agree on the collection: memory is still empty, or
    memory and the stored list are written as the same JSON. *)
Definition synced (st : State) : Prop :=
  match storage st "transactions" with
  | None => transactions st = []
  | Some (Json l) =>
      date_desc l
      /\ (transactions st = [] \/ map readBack (transactions st) = map readBack l)
  | Some (Text _ _) => False
  end.

(** ** The category registry (lines 43-65) *)

Module Registry.

Record Category : Type := mkCategory {
  label : string;
  value : string;
  color : string;
  icon : string
}.

Definition INCOME_CATEGORIES : list Category :=
  [ mkCategory "GoFundMe" "GoFundMe" "#22c55e" "heart";
    mkCategory "Allgemeine Spenden" "Allgemeine Spenden" "#10b981" "gift";
    mkCategory "Familien-Spende (privat)" "Familien-Spende (privat)" "#0ea5e9" "users";
    mkCategory "Sonstiges" "Sonstiges" "#a78bfa" "more-horizontal" ].

Definition EXPENSE_CATEGORIES : list Category :=
  [ mkCategory "Bank-√úberweisung" "Bank-√úberweisung" "#ef4444" "credit-card";
    mkCategory "Geld an ein Familienmitglied" "Geld an ein Familienmitglied"
               "#f97316" "user";
    mkCategory "Bargeld" "Bargeld" "#eab308" "dollar-sign";
    mkCategory "Sonstiges" "Sonstiges" "#a78bfa" "more-horizontal" ].

Definition pool (isIncome : bool) : list Category :=
  if isIncome then INCOME_CATEGORIES else EXPENSE_CATEGORIES.

(** [found?.field || fallback]: the fallback also replaces an empty string. *)
Definition or_fallback (found : option string) (fallback : string) : string :=
  match found with
  | Some s => if String.eqb s "" then fallback else s
  | None => fallback
  end.

(** [pool.find(c => c.value === cat)] *)
Definition lookup (cat : string) (isIncome : bool) : option Category :=
  find (fun c => String.eqb (value c) cat) (pool isIncome).

Definition categoryColor (cat : string) (isIncome : bool) : string :=
  or_fallback (option_map color (lookup cat isIncome))
              (if isIncome then "#16a34a" else "#ef4444").

Definition categoryIcon (cat : string) (isIncome : bool) : string :=
  or_fallback (option_map icon (lookup cat isIncome)) "circle".

End Registry.

(** ** What the screens derive from the collection *)

(** [transactions.slice(0, 8)] of the home screen (line 718). *)
Definition latest (ts : list Transaction) : list Transaction := firstn 8 ts.

(** [handleCategoryToggle] (lines 795-797 and 871-873), as the update
    function it hands to [setSelectedCategories]. *)
Definition handleCategoryToggle (category : string) (prev : list string) : list string :=
  if array_includes prev category
  then filter (fun c => negb (String.eqb c category)) prev
  else prev ++ [category].

(** The body of a list screen (lines 839-853 and 915-929): a notice when
    nothing is to be shown, the list otherwise. *)
Inductive ScreenBody : Type :=
| Notice (text : string)
| ItemList (items : list Transaction).

Definition noneYet (kind : bool) : string :=
  if kind then "Noch keine Einnahmen vorhanden" else "Noch keine Ausgaben vorhanden".

Definition noMatch : string := "Keine Eintr√§ge entsprechen den Filtern".

Section ScreenBodies.
Variable toLowerCase : string -> string.

Definition screenBody (kind : bool) (selectedCategories : list string)
    (searchText : string) (ts : list Transaction) : ScreenBody :=
  let shown := filteredTransactions toLowerCase kind selectedCategories searchText ts in
  if Nat.eqb (List.length shown) 0
  then Notice (if Nat.eqb (List.length (filter (ofKind kind) ts)) 0
               then noneYet kind else noMatch)
  else ItemList shown.
End ScreenBodies.

(** ** The modals and the gestures that reach the provider *)

(** [s.replace(',', '.')]: a string pattern replaces its first occurrence. *)
Fixpoint replace_first (from to : ascii) (s : string) : string :=
  match s with
  | EmptyString => EmptyString
  | String c s' =>
      if Ascii.eqb c from then String to s' else String c (replace_first from to s')
  end.

(** ** Formatting of amounts: [eur] (lines 155-159) *)

(** The decimal digits of a natural number. *)
Definition decimalDigits (n : Z) : string :=
  NilZero.string_of_uint (N.to_uint (Z.to_N n)).

Definition digitChar (d : Z) : ascii := ascii_of_nat (48 + Z.to_nat d).

Definition twoDigits (r : Z) : string :=
  String (digitChar (r / 10)) (String (digitChar (r mod 10)) EmptyString).

Definition isDigit (c : ascii) : bool :=
  (Nat.leb 48 (nat_of_ascii c) && Nat.leb (nat_of_ascii c) 57)%bool.

Fixpoint allDigits (s : string) : bool :=
  match s with
  | EmptyString => true
  | String c s' => (isDigit c && allDigits s')%bool
  end.

(** The integer nearest to [100 * m * 2^e], the larger one at a tie. *)
Definition hundredths (m : positive) (e : Z) : Z :=
  if 0 <=? e then 100 * Zpos m * 2 ^ e
  else (200 * Zpos m + 2 ^ (- e)) / 2 ^ (1 - e).

(** [10^21 <= m * 2^e] *)
Definition atLeast1e21 (m : positive) (e : Z) : bool :=
  if 0 <=? e then 10 ^ 21 <=? Zpos m * 2 ^ e
  else 10 ^ 21 * 2 ^ (- e) <=? Zpos m.

(** [x.toFixed(2)].  A number that is not finite prints as its name; a
    negative one prints its sign and then its magnitude; the magnitude is
    printed as the nearest number of hundredths, with at least one digit
    before the point.  From [10^21] on, [toFixed] falls back to the general
    [toString], which is not modelled: the result is [None] there. *)
Definition toFixed2 (x : float) : option string :=
  match Prim2SF x with
  | S754_nan => Some "NaN"
  | S754_infinity s => Some (if s then "-Infinity" else "Infinity")
  | S754_zero _ => Some "0.00"
  | S754_finite s m e =>
      if atLeast1e21 m e then None
      else let n := hundredths m e in
           Some ((if s then "-" else "")
                 ++ decimalDigits (n / 100) ++ "." ++ twoDigits (n mod 100))%string
  end.

Definition currencyPrefix : string := "‚Ç¨".

Definition eur (n : float) : option string :=
  option_map (fun s => (currencyPrefix ++ replace_first "." "," s)%string)
             (toFixed2 (if PrimFloat.is_finite n then n else 0%float)).

(** [isNaN(val) || val <= 0] *)
Definition invalidAmount (val : float) : bool :=
  (PrimFloat.is_nan val || (val <=? 0)%float)%bool.

Inductive FormOutcome (A : Type) : Type :=
| Alert (title message : string)
| Save (a : A).
Arguments Alert {A} title message.
Arguments Save {A} a.

(** The object the add modal hands to [onSave]: it has no [id] and no
    [isPinned]. *)
Record Draft : Type := mkDraft {
  draft_amount : float;
  draft_category : string;
  draft_isIncome : bool;
  draft_date : Z;
  draft_note : string
}.

(** A draft as the argument of [addTransaction], which sets the two missing
    fields itself; the values given to them here are never read. *)
Definition of_draft (d : Draft) : Transaction :=
  {| id := 0; amount := draft_amount d; category := draft_category d;
     isIncome := draft_isIncome d; date := draft_date d;
     note := Some (draft_note d); isPinned := false |}.

Definition invalidAmountMessage : string := "Bitte gib einen g√ºltigen Betrag > 0 ein.".

Section Modals.
(** [parseFloat] and [String.prototype.trim], kept abstract. *)
Variable parseFloat : string -> float.
Variable trim : string -> string.

(** [parseFloat((amount || '').replace(',', '.'))]; the amount of the form
    is always a string, so [amount || ''] is the amount. *)
Definition parseAmount (amountText : string) : float :=
  parseFloat (replace_first "," "." amountText).

(** [handleSave] of [AddModal] (lines 267-282). *)
Definition AddModal_handleSave (isIncome : bool) (amountText categoryChoice : string)
    (pickedDate : Z) (noteText : string) : FormOutcome Draft :=
  let val := parseAmount amountText in
  if invalidAmount val then Alert "Fehler" invalidAmountMessage
  else Save {| draft_amount := val; draft_category := categoryChoice;
               draft_isIncome := isIncome; draft_date := pickedDate;
               draft_note := trim noteText |}.

(** [handleSave] of [EditModal] (lines 416-431): the edited transaction is
    spread first, then amount, category, date and note are set. *)
Definition EditModal_handleSave (transaction : Transaction)
    (amountText categoryChoice : string) (pickedDate : Z) (noteText : string)
    : FormOutcome Transaction :=
  let val := parseAmount amountText in
  if invalidAmount val then Alert "Fehler" invalidAmountMessage
  else Save {| id := id transaction; amount := val; category := categoryChoice;
               isIncome := isIncome transaction; date := pickedDate;
               note := Some (trim noteText); isPinned := isPinned transaction |}.

(** What a user can do that reaches the provider.  An item of a list is
    named by its position in the collection; [confirmed] is the answer to
    the delete dialog of [TransactionItem] (lines 640-645). *)
Inductive Gesture : Type :=
| SubmitAdd (isIncome : bool) (amountText categoryChoice : string) (pickedDate : Z)
            (noteText : string) (now : Z)
| SubmitEdit (position : nat) (amountText categoryChoice : string) (pickedDate : Z)
             (noteText : string)
| PressDelete (position : nat) (confirmed : bool)
| PressTheme
| Relaunch (devTheme : bool).

(** The handlers of the screens: [handleSaveAdd] and [handleSaveEdit]
    (lines 722-738, 810-818, 886-894), [handleDelete], the theme button
    (line 578) and a cold start. *)
Definition gesture (dev : bool) (g : Gesture) (st : State) : State :=
  match g with
  | SubmitAdd isIncome amountText categoryChoice pickedDate noteText now =>
      match AddModal_handleSave isIncome amountText categoryChoice pickedDate noteText with
      | Save newTransaction => exec (addTransaction dev now (of_draft newTransaction)) st
      | Alert _ _ => st
      end
  | SubmitEdit position amountText categoryChoice pickedDate noteText =>
      match nth_error (transactions st) position with
      | Some t =>
          match EditModal_handleSave t amountText categoryChoice pickedDate noteText with
          | Save updatedTransaction =>
              exec (updateTransaction dev (id updatedTransaction) updatedTransaction) st
          | Alert _ _ => st
          end
      | None => st
      end
  | PressDelete position confirmed =>
      match nth_error (transactions st) position with
      | Some t => if confirmed then exec (deleteTransaction dev (id t)) st else st
      | None => st
      end
  | PressTheme => exec (toggleTheme dev) st
  | Relaunch devTheme => restart dev devTheme st
  end.

(** A sequence of gestures, each with the answer of the device. *)
Definition played (gs : list (bool * Gesture)) (st : State) : State :=
  fold_left (fun s dg => gesture (fst dg) (snd dg) s) gs st.
End Modals.

(** The clock readings of the submitted Adds, in order. *)
Fixpoint clockReadings (gs : list (bool * Gesture)) : list Z :=
  match gs with
  | [] => []
  | (_, SubmitAdd _ _ _ _ _ now) :: gs' => now :: clockReadings gs'
  | _ :: gs' => clockReadings gs'
  end.

(** What the modals let through, and what it reads back as: a number that
    is not [NaN] and not [<= 0], or [null]. *)
Definition entered (t : Transaction) : Prop :=
  isPinned t = false
  /\ match amount t with
     | Num x => invalidAmount x = false
     | Null => True
     end.

(** What the edit modal cannot change. *)
Definition identity (t : Transaction) : Z * bool * bool :=
  (id t, isIncome t, isPinned t).

(** Trimming of the ASCII white space, the instance used in the examples. *)
Definition isSpace (c : ascii) : bool :=
  let n := nat_of_ascii c in
  (Nat.eqb n 32 || (Nat.leb 9 n && Nat.leb n 13))%bool.

Fixpoint trimStart (s : string) : string :=
  match s with
  | EmptyString => EmptyString
  | String c s' => if isSpace c then trimStart s' else s
  end.

Fixpoint trimEnd (s : string) : string :=
  match s with
  | EmptyString => EmptyString
  | String c s' =>
      let r := trimEnd s' in
      if (isSpace c && String.eqb r "")%bool then EmptyString else String c r
  end.

Definition asciiTrim (s : string) : string := trimEnd (trimStart s).

(** A table standing in for [parseFloat] in the examples: its values on
    the inputs used there. *)
Definition sampleParseFloat (s : string) : float :=
  if String.eqb s "12.50" then 12.5%float
  else if String.eqb s "20" then 20%float
  else if String.eqb s "0" then 0%float
  else if String.eqb s "1e999" then infinity
  else nan.

Definition sampleGestures : list (bool * Gesture) :=
  [ (true, Relaunch true);
    (true, SubmitAdd true "12,50" "GoFundMe" 1700000000000 " Anlass " 1700000000123);
    (true, SubmitAdd false "0" "Bargeld" 1700000000000 "" 1700000000200);
    (false, SubmitAdd false "20" "Bargeld" 1700086400000 "" 1700000000300);
    (true, SubmitAdd false "20" "Bargeld" 1700086400000 "" 1700000000456);
    (true, SubmitEdit 1 "20" "Sonstiges" 1700000000000 "neu");
    (true, PressDelete 0 false) ].

(** * Properties *)

(** ** Totals *)

Lemma fold_filter_amount (p : Transaction -> bool) (ts : list Transaction) (acc : float) :
  fold_left (fun s t => (s + toNumber (amount t))%float) (filter p ts) acc
  = fold_left (fun s t => if p t then (s + toNumber (amount t))%float else s) ts acc.
Proof.
  revert acc. induction ts as [|t ts IH]; intros acc; simpl.
  - reflexivity.
  - destruct (p t); simpl; apply IH.
Qed.

Lemma fold_left_ext_float (f g : float -> Transaction -> float) ts acc :
  (forall s t, f s t = g s t) -> fold_left f ts acc = fold_left g ts acc.
Proof.
  intros E. revert acc. induction ts as [|t ts IH]; intros acc; simpl.
  - reflexivity.
  - rewrite E. apply IH.
Qed.

(** C2. In every state of the provider, [totalIncome] is the sum of [amount]
    over the transactions with [isIncome = true], [totalExpense] the sum over
    those with [isIncome = false] (sums taken from 0 in collection order, in
    binary64 arithmetic), and [balance] is [totalIncome - totalExpense]. *)
Theorem totals_are_kind_sums (st : State) :
  totalIncome (transactions st) = spec_sum_of_kind true (transactions st)
  /\ totalExpense (transactions st) = spec_sum_of_kind false (transactions st)
  /\ balance (transactions st)
     = (totalIncome (transactions st) - totalExpense (transactions st))%float.
Proof.
  unfold totalIncome, totalExpense, spec_sum_of_kind.
  repeat split.
  - rewrite fold_filter_amount. apply fold_left_ext_float.
    intros s t. destruct (isIncome t); reflexivity.
  - rewrite fold_filter_amount. apply fold_left_ext_float.
    intros s t. destruct (isIncome t); reflexivity.
Qed.

(** ** The sort *)

Section ArraySortFacts.
Context {A : Type}.
Variable cmp : A -> A -> Z.

Lemma sort_insert_perm (x : A) (l : list A) :
  Permutation (sort_insert cmp x l) (x :: l).
Proof.
  induction l as [|y l IH]; simpl.
  - apply Permutation_refl.
  - destruct (cmp x y <=? 0).
    + apply Permutation_refl.
    + eapply perm_trans; [apply perm_skip, IH | apply perm_swap].
Qed.

Lemma array_sort_perm (l : list A) : Permutation (array_sort cmp l) l.
Proof.
  induction l as [|x l IH]; simpl.
  - apply perm_nil.
  - eapply perm_trans; [apply sort_insert_perm | apply perm_skip, IH].
Qed.

Lemma array_sort_length (l : list A) :
  List.length (array_sort cmp l) = List.length l.
Proof. apply Permutation_length, array_sort_perm. Qed.

Lemma array_sort_In (l : list A) (x : A) : In x (array_sort cmp l) <-> In x l.
Proof.
  split; apply Permutation_in;
    [apply array_sort_perm | apply Permutation_sym, array_sort_perm].
Qed.
End ArraySortFacts.

Lemma sortByDateDesc_perm l : Permutation (sortByDateDesc l) l.
Proof. apply array_sort_perm. Qed.

Lemma sortByDateDesc_In l x : In x (sortByDateDesc l) <-> In x l.
Proof. apply array_sort_In. Qed.

Lemma sortByDateDesc_length l : List.length (sortByDateDesc l) = List.length l.
Proof. apply array_sort_length. Qed.

Lemma insert_date_desc x l :
  date_desc l -> date_desc (sort_insert byDateDesc x l).
Proof.
  unfold date_desc. induction 1 as [|y l Hs IH Hy]; simpl.
  - constructor; constructor.
  - unfold byDateDesc at 1. destruct (Z.leb_spec (date y - date x) 0) as [Hle|Hgt].
    + constructor; [constructor; assumption|].
      constructor; [unfold newer_or_same; lia|].
      eapply Forall_impl; [|exact Hy].
      unfold newer_or_same. intros z Hz. lia.
    + constructor; [exact IH|].
      eapply Permutation_Forall; [apply Permutation_sym, sort_insert_perm|].
      constructor; [unfold newer_or_same; lia | exact Hy].
Qed.

Lemma sortByDateDesc_sorted l : date_desc (sortByDateDesc l).
Proof.
  unfold sortByDateDesc. induction l as [|x l IH]; simpl.
  - constructor.
  - apply insert_date_desc, IH.
Qed.

(** Sorting a sorted list changes nothing: the sort is stable. *)
Lemma sortByDateDesc_fixed l : date_desc l -> sortByDateDesc l = l.
Proof.
  unfold date_desc, sortByDateDesc. induction 1 as [|x l Hs IH Hx]; simpl.
  - reflexivity.
  - rewrite IH. destruct l as [|y l]; simpl.
    + reflexivity.
    + inversion Hx as [|? ? Hy _]; subst. unfold newer_or_same in Hy.
      unfold byDateDesc. destruct (Z.leb_spec (date y - date x) 0); [reflexivity | lia].
Qed.

Lemma sortByDateDesc_idem l : sortByDateDesc (sortByDateDesc l) = sortByDateDesc l.
Proof. apply sortByDateDesc_fixed, sortByDateDesc_sorted. Qed.

(** Transactions of one date keep the order they had before the sort. *)
Lemma insert_same_date d x l :
  filter (fun t => date t =? d) (sort_insert byDateDesc x l)
  = filter (fun t => date t =? d) (x :: l).
Proof.
  induction l as [|y l IH].
  - reflexivity.
  - cbn [sort_insert]. unfold byDateDesc at 1.
    destruct (Z.leb_spec (date y - date x) 0) as [Hle|Hgt].
    + reflexivity.
    + cbn [filter] in *. rewrite IH.
      destruct (Z.eqb_spec (date y) d) as [Ey|Ny];
        destruct (Z.eqb_spec (date x) d) as [Ex|Nx]; try reflexivity.
      lia.
Qed.

Lemma sortByDateDesc_stable d l :
  filter (fun t => date t =? d) (sortByDateDesc l)
  = filter (fun t => date t =? d) l.
Proof.
  unfold sortByDateDesc. induction l as [|x l IH].
  - reflexivity.
  - cbn [array_sort]. rewrite insert_same_date. cbn [filter]. rewrite IH. reflexivity.
Qed.

(** ** What [saveTransactions] does *)

Lemma saveTransactions_written l st :
  saveTransactions true l st
  = (Fulfilled tt,
     {| transactions := sortByDateDesc l; isDarkMode := isDarkMode st;
        storage := store "transactions" (Json (sortByDateDesc l)) (storage st);
        console := console st |}).
Proof. reflexivity. Qed.

Lemma saveTransactions_refused l st :
  saveTransactions false l st
  = (Fulfilled tt,
     {| transactions := transactions st; isDarkMode := isDarkMode st;
        storage := storage st; console := console st ++ [saveFailure] |}).
Proof. reflexivity. Qed.

Lemma perform_saves dev m st :
  perform dev m st = saveTransactions dev (attempted m (transactions st)) st.
Proof. destruct m; reflexivity. Qed.

Lemma perform_written m st :
  exec (perform true m) st
  = {| transactions := sortByDateDesc (attempted m (transactions st));
       isDarkMode := isDarkMode st;
       storage := store "transactions"
                        (Json (sortByDateDesc (attempted m (transactions st))))
                        (storage st);
       console := console st |}.
Proof. unfold exec. rewrite perform_saves. reflexivity. Qed.

Lemma perform_refused m st :
  exec (perform false m) st
  = {| transactions := transactions st; isDarkMode := isDarkMode st;
       storage := storage st; console := console st ++ [saveFailure] |}.
Proof. unfold exec. rewrite perform_saves. reflexivity. Qed.

Lemma perform_fulfilled dev m st : outcome (perform dev m) st = Fulfilled tt.
Proof. unfold outcome. rewrite perform_saves. destruct dev; reflexivity. Qed.

(** ** A failed write *)

(** C1, as the code has it.  When the write of a mutating operation (Add,
    Update, Delete) is refused, the failure is logged, the operation still
    ends fulfilled, and the in-memory collection is the one from before the
    operation: the attempted mutation is not applied, because the state is
    set only after the awaited write.  The device storage is untouched. *)
Theorem refused_write_leaves_memory (m : Mutation) (st : State) :
  transactions (exec (perform false m) st) = transactions st
  /\ storage (exec (perform false m) st) = storage st
  /\ console (exec (perform false m) st) = console st ++ [saveFailure]
  /\ outcome (perform false m) st = Fulfilled tt.
Proof.
  rewrite perform_refused, perform_fulfilled. repeat split.
Qed.

(** C1 as stated fails: after an Add whose write is refused the new
    transaction is not in memory, so the collection does not reflect the
    attempted mutation. *)
Lemma refused_add_not_in_memory :
  let st' := exec (perform false (Add 1700000000123 donation)) freshInstall in
  transactions st' = []
  /\ ~ In (withId 1700000000123 donation) (transactions st')
  /\ transactions st'
     <> sortByDateDesc (attempted (Add 1700000000123 donation) (transactions freshInstall)).
Proof.
  cbv zeta. rewrite perform_refused. cbn [transactions freshInstall initialState].
  repeat split.
  - intros [].
  - discriminate.
Qed.

(** ** The date order *)

Lemma loadTransactions_cases dev st :
  let st' := exec (loadTransactions dev) st in
  storage st' = storage st
  /\ (transactions st' = transactions st
      \/ exists l, transactions st' = sortByDateDesc l).
Proof.
  unfold exec, loadTransactions, try_catch, bind, getItem. cbn.
  destruct dev; cbn; [|auto].
  destruct (storage st "transactions") as [[s Hs|l]|]; cbn; [| eauto | auto].
  destruct (negb (s =? "")%string); cbn; auto.
Qed.

Lemma loadTheme_keeps dev st :
  transactions (exec (loadTheme dev) st) = transactions st
  /\ storage (exec (loadTheme dev) st) = storage st.
Proof.
  unfold exec, loadTheme, try_catch, bind, getItem. cbn.
  destruct dev; cbn; [|auto].
  destruct (storage st "theme") as [v|]; cbn; [|auto].
  destruct (truthy v); cbn; auto.
Qed.

Lemma toggleTheme_keeps dev st :
  transactions (exec (toggleTheme dev) st) = transactions st
  /\ persisted (exec (toggleTheme dev) st) = persisted st.
Proof.
  unfold exec, toggleTheme, bind, setItem, persisted. cbn.
  destruct dev; cbn; auto.
Qed.

Lemma run_well_kept dev c st : well_kept st -> well_kept (exec (run dev c) st).
Proof.
  intros [Hm Hp]. destruct c as [m| | |]; cbn [run].
  - destruct dev.
    + rewrite perform_written. split; cbn.
      * apply sortByDateDesc_sorted.
      * unfold persisted. cbn. intros l [= <-]. apply sortByDateDesc_sorted.
    + rewrite perform_refused. split; [exact Hm | exact Hp].
  - destruct (loadTransactions_cases dev st) as [Hs Ht]. split.
    + destruct Ht as [-> | [l ->]]; [exact Hm | apply sortByDateDesc_sorted].
    + unfold persisted in *. rewrite Hs. exact Hp.
  - destruct (loadTheme_keeps dev st) as [Ht Hs]. split.
    + rewrite Ht. exact Hm.
    + unfold persisted in *. rewrite Hs. exact Hp.
  - destruct (toggleTheme_keeps dev st) as [Ht Hs]. split.
    + rewrite Ht. exact Hm.
    + rewrite Hs. exact Hp.
Qed.

Lemma reachable_well_kept st : reachable st -> well_kept st.
Proof.
  induction 1 as [|st dev c _ IH|st _ IH].
  - split; [constructor | discriminate].
  - apply run_well_kept, IH.
  - split; [constructor | exact (proj2 IH)].
Qed.

(** C7. In every state the application can reach, right after a mutating
    operation (Add, Update, Delete) the in-memory collection and the
    persisted collection are both in date-descending order, whatever the
    device answered.  When the write went through, both are the full stable
    re-sort of the list the operation built: transactions of one date keep
    the order they had in that list, no second key is consulted. *)
Theorem mutation_keeps_date_order (st : State) (dev : bool) (m : Mutation) :
  reachable st ->
  let st' := exec (perform dev m) st in
  date_desc (transactions st')
  /\ (forall l, persisted st' = Some l -> date_desc l)
  /\ (dev = true ->
      persisted st' = Some (transactions st')
      /\ transactions st' = sortByDateDesc (attempted m (transactions st))
      /\ forall d, filter (fun t => date t =? d) (transactions st')
                   = filter (fun t => date t =? d) (attempted m (transactions st))).
Proof.
  intros Hr st'.
  destruct (run_well_kept dev (Mutate m) st (reachable_well_kept st Hr)) as [Hm Hp].
  split; [exact Hm|]. split; [exact Hp|].
  intros ->. subst st'. rewrite perform_written. cbn.
  repeat split. intros d. apply sortByDateDesc_stable.
Qed.

(** ** The lists built by Update and Delete *)

Lemma updated_absent i u ts :
  (forall x, In x ts -> id x <> i) -> updated i u ts = ts.
Proof.
  unfold updated. induction ts as [|t ts IH]; intros H; simpl.
  - reflexivity.
  - destruct (Z.eqb_spec (id t) i) as [E|_].
    + exfalso. apply (H t); [left; reflexivity | exact E].
    + f_equal. apply IH. intros x Hx. apply H. right. exact Hx.
Qed.

Lemma updated_length i u ts : List.length (updated i u ts) = List.length ts.
Proof. apply length_map. Qed.

Lemma updated_ids i u ts : map id (updated i u ts) = map id ts.
Proof.
  unfold updated. induction ts as [|t ts IH]; simpl.
  - reflexivity.
  - rewrite IH. destruct (Z.eqb_spec (id t) i) as [E|_]; [simpl; congruence | reflexivity].
Qed.

Lemma updated_In i u ts x :
  In x (updated i u ts) <->
  (x = with_id u i /\ exists t, In t ts /\ id t = i) \/ (In x ts /\ id x <> i).
Proof.
  unfold updated. rewrite in_map_iff. split.
  - intros [t [Hx Ht]]. destruct (Z.eqb_spec (id t) i) as [E|N].
    + left. split; [symmetry; exact Hx | exists t; split; assumption].
    + right. subst x. split; assumption.
  - intros [[-> [t [Ht E]]] | [Hx N]].
    + exists t. split; [|exact Ht].
      destruct (Z.eqb_spec (id t) i); [reflexivity | contradiction].
    + exists x. split; [|exact Hx].
      destruct (Z.eqb_spec (id x) i); [contradiction | reflexivity].
Qed.

Lemma filtered_In i ts x : In x (filtered i ts) <-> In x ts /\ id x <> i.
Proof.
  unfold filtered. rewrite filter_In. split; intros [H1 H2]; split; try exact H1.
  - intros E. rewrite (proj2 (Z.eqb_eq _ _) E) in H2. discriminate.
  - destruct (Z.eqb_spec (id x) i); [contradiction | reflexivity].
Qed.

Lemma filtered_absent i ts :
  (forall x, In x ts -> id x <> i) -> filtered i ts = ts.
Proof.
  unfold filtered. induction ts as [|t ts IH]; intros H; simpl.
  - reflexivity.
  - destruct (Z.eqb_spec (id t) i) as [E|_]; simpl.
    + exfalso. apply (H t); [left; reflexivity | exact E].
    + f_equal. apply IH. intros x Hx. apply H. right. exact Hx.
Qed.

Lemma filtered_idem i ts : filtered i (filtered i ts) = filtered i ts.
Proof. apply filtered_absent. intros x Hx. apply filtered_In in Hx. tauto. Qed.

(** With unique ids, Delete drops exactly one element of a list that has
    the id. *)
Lemma filtered_length_unique i ts :
  NoDup (map id ts) -> (exists t, In t ts /\ id t = i) ->
  S (List.length (filtered i ts)) = List.length ts.
Proof.
  induction ts as [|t ts IH]; intros Hnd [t0 [Hin E]].
  - destruct Hin.
  - simpl in Hnd. inversion Hnd as [|? ? Hnotin Hnd']; subst.
    unfold filtered in *. simpl.
    destruct (Z.eqb_spec (id t) (id t0)) as [Et|Nt]; simpl.
    + f_equal. change (filter _ ts) with (filtered (id t0) ts).
      rewrite filtered_absent; [reflexivity|].
      intros x Hx Ex. apply Hnotin. rewrite Et, <- Ex. apply in_map, Hx.
    + f_equal. apply IH; [exact Hnd'|].
      destruct Hin as [->|Hin]; [contradiction Nt; reflexivity|].
      exists t0. split; [exact Hin | reflexivity].
Qed.

Lemma sorted_filtered_absent i ts :
  (forall x, In x ts -> id x <> i) ->
  filtered i (sortByDateDesc ts) = sortByDateDesc ts.
Proof.
  intros H. apply filtered_absent. intros x Hx. apply H, sortByDateDesc_In, Hx.
Qed.

Lemma deleteTransaction_written i st :
  transactions (exec (deleteTransaction true i) st)
  = sortByDateDesc (filtered i (transactions st)).
Proof. exact (f_equal transactions (perform_written (Delete i) st)). Qed.

Lemma deleteTransaction_refused i st :
  transactions (exec (deleteTransaction false i) st) = transactions st.
Proof. exact (f_equal transactions (perform_refused (Delete i) st)). Qed.

Lemma updateTransaction_written i u st :
  transactions (exec (updateTransaction true i u) st)
  = sortByDateDesc (updated i u (transactions st)).
Proof. exact (f_equal transactions (perform_written (Update i u) st)). Qed.

Lemma updateTransaction_refused i u st :
  transactions (exec (updateTransaction false i u) st) = transactions st.
Proof. exact (f_equal transactions (perform_refused (Update i u) st)). Qed.

Lemma addTransaction_written now t st :
  transactions (exec (addTransaction true now t) st)
  = sortByDateDesc (withId now t :: transactions st).
Proof. exact (f_equal transactions (perform_written (Add now t) st)). Qed.

Lemma addTransaction_refused now t st :
  transactions (exec (addTransaction false now t) st) = transactions st.
Proof. exact (f_equal transactions (perform_refused (Add now t) st)). Qed.

Lemma filter_perm {A} (p : A -> bool) (l l' : list A) :
  Permutation l l' -> Permutation (filter p l) (filter p l').
Proof.
  induction 1 as [|x l l' _ IH|x y l|l l' l'' _ IH1 _ IH2]; simpl.
  - apply perm_nil.
  - destruct (p x); [apply perm_skip|]; exact IH.
  - destruct (p x), (p y); try apply Permutation_refl. apply perm_swap.
  - eapply perm_trans; eassumption.
Qed.

Lemma filter_none {A} (p : A -> bool) (l : list A) :
  (forall x, In x l -> p x = false) -> filter p l = [].
Proof.
  induction l as [|x l IH]; intros H; simpl.
  - reflexivity.
  - rewrite (H x (or_introl eq_refl)). apply IH. intros y Hy. apply H. right. exact Hy.
Qed.

(** ** Facts about the sample state *)

Lemma twoEntries_ids : map id (transactions twoEntries) = [1700000000456; 1700000000123].
Proof. reflexivity. Qed.

Lemma twoEntries_sorted : date_desc (transactions twoEntries).
Proof. apply (sortByDateDesc_sorted (withId 1700000000456 transfer :: _)). Qed.

Lemma twoEntries_unique : NoDup (map id (transactions twoEntries)).
Proof.
  rewrite twoEntries_ids.
  constructor; [intros [E|[]]; discriminate|].
  constructor; [intros []|constructor].
Qed.

Lemma twoEntries_reachable : reachable twoEntries.
Proof.
  apply (reach_run _ true (Mutate (Add 1700000000456 transfer))).
  apply (reach_run _ true (Mutate (Add 1700000000123 donation))).
  apply reach_install.
Qed.

Lemma twoEntries_has_donation :
  exists t, In t (transactions twoEntries) /\ id t = 1700000000123.
Proof.
  exists (withId 1700000000123 donation). split; [right; left|]; reflexivity.
Qed.

Lemma twoEntries_lacks_42 : forall x, In x (transactions twoEntries) -> id x <> 42.
Proof. rewrite <- Forall_forall. repeat constructor; discriminate. Qed.

Lemma mutation_keeps_date_order_witness :
  let st' := exec (perform true (Add 1700000000789 donation)) twoEntries in
  reachable twoEntries
  /\ attempted (Add 1700000000789 donation) (transactions twoEntries)
     <> transactions st'
  /\ map id (transactions st') = [1700000000456; 1700000000789; 1700000000123]
  /\ date_desc (transactions st')
  /\ persisted st' = Some (transactions st').
Proof.
  cbv zeta.
  destruct (mutation_keeps_date_order twoEntries true (Add 1700000000789 donation)
              twoEntries_reachable) as (Hsorted & _ & Hwritten).
  destruct (Hwritten eq_refl) as (Hstored & _ & _).
  split; [exact twoEntries_reachable|]. split; [discriminate|].
  split; [reflexivity|]. split; [exact Hsorted | exact Hstored].
Defined.

(** ** Add *)

(** C3, as the code has it.  The store does not look at [amount]; for every
    Add input whose write is accepted the collection grows by exactly one
    element, the new transaction has [isPinned = false] and carries the clock
    reading [Date.now()] as its id.  That id is not compared with the ids
    already present: it is unique in the result when the clock reading
    differs from every existing id. *)
Theorem add_accepted_grows_by_one (st : State) (now : Z) (t : Transaction) :
  let st' := exec (addTransaction true now t) st in
  List.length (transactions st') = S (List.length (transactions st))
  /\ Permutation (transactions st') (withId now t :: transactions st)
  /\ id (withId now t) = now
  /\ isPinned (withId now t) = false
  /\ persisted st' = Some (transactions st')
  /\ ((forall x, In x (transactions st) -> id x <> now) ->
      filter (fun x => id x =? now) (transactions st') = [withId now t]
      /\ (NoDup (map id (transactions st)) -> NoDup (map id (transactions st')))).
Proof.
  intros st'.
  assert (Hperm : Permutation (transactions st') (withId now t :: transactions st)).
  { subst st'. rewrite addTransaction_written. apply sortByDateDesc_perm. }
  split; [exact (Permutation_length Hperm)|].
  split; [exact Hperm|].
  split; [reflexivity|]. split; [reflexivity|]. split; [reflexivity|].
  intros Hfresh. split.
  - apply Permutation_length_1_inv.
    eapply perm_trans; [|apply Permutation_sym, filter_perm, Hperm].
    cbn [filter withId with_id_pinned id]. rewrite Z.eqb_refl.
    rewrite filter_none; [apply Permutation_refl|].
    intros x Hx. apply Z.eqb_neq, Hfresh, Hx.
  - intros Hnd. eapply Permutation_NoDup.
    + apply Permutation_sym, Permutation_map, Hperm.
    + cbn [map withId with_id_pinned id]. constructor; [|exact Hnd].
      intros Hin. apply in_map_iff in Hin. destruct Hin as [x [Ex Hx]].
      exact (Hfresh x Hx Ex).
Qed.

Lemma add_accepted_grows_by_one_witness :
  let st' := exec (addTransaction true 1700000000789 donation) twoEntries in
  (forall x, In x (transactions twoEntries) -> id x <> 1700000000789)
  /\ NoDup (map id (transactions twoEntries))
  /\ List.length (transactions st') = 3%nat
  /\ filter (fun x => id x =? 1700000000789) (transactions st')
     = [withId 1700000000789 donation]
  /\ NoDup (map id (transactions st')).
Proof.
  cbv zeta.
  assert (H : forall x, In x (transactions twoEntries) -> id x <> 1700000000789).
  { rewrite <- Forall_forall. repeat constructor; discriminate. }
  destruct (add_accepted_grows_by_one twoEntries 1700000000789 donation)
    as (Hlen & _ & _ & _ & _ & Hfresh).
  destruct (Hfresh H) as [Hone Hnd].
  split; [exact H|]. split; [exact twoEntries_unique|].
  split; [exact Hlen|]. split; [exact Hone | exact (Hnd twoEntries_unique)].
Defined.

(** C3 as stated fails twice over.  Two Adds that read the same clock value
    give the second transaction the id of the first, so the new id is not
    unique among the existing ones; and an Add whose write is refused leaves
    the collection at its old size. *)
Lemma add_repeats_id_or_is_dropped :
  let st := exec (addTransaction true 1700000000123 donation) freshInstall in
  let twice := exec (addTransaction true 1700000000123 transfer) st in
  let dropped := exec (addTransaction false 1700000000999 transfer) st in
  (exists x, In x (transactions st) /\ id x = id (withId 1700000000123 transfer))
  /\ map id (transactions twice) = [1700000000123; 1700000000123]
  /\ List.length (transactions dropped) = List.length (transactions st).
Proof.
  cbv zeta. split; [|split].
  - exists (withId 1700000000123 donation). split; [left|]; reflexivity.
  - reflexivity.
  - rewrite addTransaction_refused. reflexivity.
Qed.

(** ** Delete *)

(** C4, as the code has it.  In a collection with unique ids: when a
    transaction has the id and the write is accepted, Delete leaves exactly
    one element fewer and none with that id; when no transaction has the id,
    Delete changes nothing in memory whatever the device answered: the same
    records remain, and a date-ordered collection, hence every reachable one,
    remains the very same list. *)
Theorem delete_present_or_absent (st : State) (i : Z) :
  NoDup (map id (transactions st)) ->
  ((exists t, In t (transactions st) /\ id t = i) ->
   let st' := exec (deleteTransaction true i) st in
   S (List.length (transactions st')) = List.length (transactions st)
   /\ (forall x, In x (transactions st') -> id x <> i)
   /\ persisted st' = Some (transactions st'))
  /\ ((forall x, In x (transactions st) -> id x <> i) ->
      forall dev,
        let st' := exec (deleteTransaction dev i) st in
        outcome (deleteTransaction dev i) st = Fulfilled tt
        /\ Permutation (transactions st') (transactions st)
        /\ (date_desc (transactions st) -> transactions st' = transactions st)
        /\ (reachable st -> transactions st' = transactions st)).
Proof.
  intros Hnd. split.
  - intros Hpresent st'. subst st'. rewrite deleteTransaction_written.
    split; [|split].
    + rewrite sortByDateDesc_length. apply filtered_length_unique; assumption.
    + intros x Hx. apply sortByDateDesc_In, filtered_In in Hx. tauto.
    + reflexivity.
  - intros Habsent dev st'.
    assert (Hsorted : date_desc (transactions st) -> transactions st' = transactions st).
    { intros Hs. subst st'. destruct dev.
      - rewrite deleteTransaction_written, filtered_absent by exact Habsent.
        apply sortByDateDesc_fixed, Hs.
      - apply deleteTransaction_refused. }
    split; [exact (perform_fulfilled dev (Delete i) st)|].
    split; [|split].
    + subst st'. destruct dev.
      * rewrite deleteTransaction_written, filtered_absent by exact Habsent.
        apply sortByDateDesc_perm.
      * rewrite deleteTransaction_refused. apply Permutation_refl.
    + exact Hsorted.
    + intros Hr. apply Hsorted. exact (proj1 (reachable_well_kept st Hr)).
Qed.

Lemma delete_present_or_absent_witness :
  NoDup (map id (transactions twoEntries))
  /\ S (List.length (transactions (exec (deleteTransaction true 1700000000123) twoEntries)))
     = List.length (transactions twoEntries)
  /\ transactions (exec (deleteTransaction false 42) twoEntries) = transactions twoEntries.
Proof.
  pose proof (delete_present_or_absent twoEntries 1700000000123 twoEntries_unique)
    as [Hpresent _].
  pose proof (delete_present_or_absent twoEntries 42 twoEntries_unique)
    as [_ Habsent].
  split; [exact twoEntries_unique|]. split.
  - apply Hpresent, twoEntries_has_donation.
  - destruct (Habsent twoEntries_lacks_42 false) as (_ & _ & Hsame & _).
    exact (Hsame twoEntries_sorted).
Defined.

(** C4 as stated fails: a Delete of a present id whose write is refused
    leaves the collection at its old size, the record still in it. *)
Lemma refused_delete_keeps_record :
  let st' := exec (deleteTransaction false 1700000000123) twoEntries in
  NoDup (map id (transactions twoEntries))
  /\ (exists t, In t (transactions twoEntries) /\ id t = 1700000000123)
  /\ List.length (transactions st') = List.length (transactions twoEntries)
  /\ (exists x, In x (transactions st') /\ id x = 1700000000123).
Proof.
  cbv zeta. rewrite deleteTransaction_refused.
  split; [exact twoEntries_unique|]. split; [exact twoEntries_has_donation|].
  split; [reflexivity | exact twoEntries_has_donation].
Qed.

(** C10, as the code has it.  Two Deletes of one id leave the in-memory
    collection of a single Delete whose write is accepted as soon as one of
    the two writes is; so Delete is idempotent whenever the device answers
    both calls alike.  A Delete whose write is accepted removes every record
    with the id, duplicates included. *)
Theorem delete_twice (st : State) (i : Z) (dev1 dev2 : bool) :
  transactions (exec (deleteTransaction dev2 i) (exec (deleteTransaction dev1 i) st))
  = transactions (exec (deleteTransaction (dev1 || dev2) i) st)
  /\ transactions (exec (deleteTransaction dev1 i) (exec (deleteTransaction dev1 i) st))
     = transactions (exec (deleteTransaction dev1 i) st)
  /\ forall x, In x (transactions (exec (deleteTransaction true i) st)) -> id x <> i.
Proof.
  assert (Hgen : forall d1 d2,
    transactions (exec (deleteTransaction d2 i) (exec (deleteTransaction d1 i) st))
    = transactions (exec (deleteTransaction (d1 || d2) i) st)).
  { intros [|] [|]; cbn [orb];
      repeat rewrite ?deleteTransaction_written, ?deleteTransaction_refused;
      try reflexivity.
    rewrite sorted_filtered_absent.
    - apply sortByDateDesc_idem.
    - intros x Hx. apply filtered_In in Hx. tauto. }
  split; [apply Hgen|]. split.
  - rewrite Hgen. destruct dev1; reflexivity.
  - intros x Hx. rewrite deleteTransaction_written in Hx.
    apply sortByDateDesc_In, filtered_In in Hx. tauto.
Qed.

(** C10 as stated fails: when the first write is refused and the second
    accepted, two Deletes differ from the one (refused) Delete, which
    removed nothing. *)
Lemma delete_twice_differs_after_refusal :
  let once := exec (deleteTransaction false 1700000000123) twoEntries in
  let twice := exec (deleteTransaction true 1700000000123) once in
  transactions twice <> transactions once
  /\ (exists x, In x (transactions once) /\ id x = 1700000000123).
Proof.
  cbv zeta. split.
  - intros E. apply (f_equal (@List.length Transaction)) in E.
    rewrite deleteTransaction_written, !deleteTransaction_refused in E.
    rewrite sortByDateDesc_length in E. discriminate E.
  - rewrite deleteTransaction_refused. exact twoEntries_has_donation.
Qed.

(** ** Update *)

(** C5. An Update whose id no transaction carries raises no error and leaves
    the collection with the same records (same ids, same field values),
    whatever the device answered; in a date-ordered collection, and so in
    every reachable state, the in-memory list is the very same list. *)
Theorem update_absent_changes_nothing (st : State) (dev : bool) (i : Z)
    (fields : Transaction) :
  (forall x, In x (transactions st) -> id x <> i) ->
  let st' := exec (updateTransaction dev i fields) st in
  outcome (updateTransaction dev i fields) st = Fulfilled tt
  /\ Permutation (transactions st') (transactions st)
  /\ (date_desc (transactions st) -> transactions st' = transactions st)
  /\ (reachable st -> transactions st' = transactions st).
Proof.
  intros Habsent st'.
  assert (Hsorted : date_desc (transactions st) -> transactions st' = transactions st).
  { intros Hs. subst st'. destruct dev.
    - rewrite updateTransaction_written, updated_absent by exact Habsent.
      apply sortByDateDesc_fixed, Hs.
    - apply updateTransaction_refused. }
  split; [exact (perform_fulfilled dev (Update i fields) st)|].
  split; [|split].
  - subst st'. destruct dev.
    + rewrite updateTransaction_written, updated_absent by exact Habsent.
      apply sortByDateDesc_perm.
    + rewrite updateTransaction_refused. apply Permutation_refl.
  - exact Hsorted.
  - intros Hr. apply Hsorted. exact (proj1 (reachable_well_kept st Hr)).
Qed.

Lemma update_absent_changes_nothing_witness :
  (forall x, In x (transactions twoEntries) -> id x <> 42)
  /\ transactions (exec (updateTransaction true 42 donation) twoEntries)
     = transactions twoEntries.
Proof.
  split; [exact twoEntries_lacks_42|].
  apply (update_absent_changes_nothing twoEntries true 42 donation twoEntries_lacks_42).
  exact twoEntries_reachable.
Defined.

(** C9, as the code has it.  For an Update whose id is present and whose
    write is accepted, every record with that id becomes the supplied field
    set with only [id] forced to the given id; the records with other ids
    stay.  Amount, category and kind are the caller's, whatever they are:
    nothing is validated. *)
Theorem update_accepted_replaces_verbatim (st : State) (i : Z) (fields : Transaction) :
  (exists t, In t (transactions st) /\ id t = i) ->
  let st' := exec (updateTransaction true i fields) st in
  In (with_id fields i) (transactions st')
  /\ (forall x, In x (transactions st') -> id x = i -> x = with_id fields i)
  /\ (forall x, id x <> i -> (In x (transactions st') <-> In x (transactions st)))
  /\ with_id fields i
     = {| id := i; amount := amount fields; category := category fields;
          isIncome := isIncome fields; date := date fields; note := note fields;
          isPinned := isPinned fields |}
  /\ List.length (transactions st') = List.length (transactions st)
  /\ persisted st' = Some (transactions st').
Proof.
  intros Hpresent st'. subst st'. rewrite updateTransaction_written.
  split; [|split; [|split; [|split; [|split]]]].
  - apply sortByDateDesc_In, updated_In. left. split; [reflexivity | exact Hpresent].
  - intros x Hx E. apply sortByDateDesc_In, updated_In in Hx.
    destruct Hx as [[-> _] | [_ N]]; [reflexivity | contradiction].
  - intros x N. rewrite sortByDateDesc_In, updated_In. split.
    + intros [[-> _] | [Hx _]]; [contradiction N; reflexivity | exact Hx].
    + intros Hx. right. split; assumption.
  - reflexivity.
  - rewrite sortByDateDesc_length. apply updated_length.
  - reflexivity.
Qed.

Lemma update_accepted_replaces_verbatim_witness :
  (exists t, In t (transactions twoEntries) /\ id t = 1700000000123)
  /\ In {| id := 1700000000123; amount := (-5)%float; category := "???";
           isIncome := false; date := 1700000000000; note := None;
           isPinned := true |}
        (transactions (exec (updateTransaction true 1700000000123 badFields) twoEntries)).
Proof.
  split; [exact twoEntries_has_donation|].
  exact (proj1 (update_accepted_replaces_verbatim twoEntries 1700000000123 badFields
                  twoEntries_has_donation)).
Defined.

(** C9 as stated fails: after an Update of a present id whose write is
    refused, the record with that id is still the old one, not the supplied
    field set. *)
Lemma refused_update_keeps_record :
  let st' := exec (updateTransaction false 1700000000123 badFields) twoEntries in
  (exists t, In t (transactions twoEntries) /\ id t = 1700000000123)
  /\ ~ In (with_id badFields 1700000000123) (transactions st')
  /\ In (withId 1700000000123 donation) (transactions st').
Proof.
  cbv zeta. rewrite updateTransaction_refused. split; [|split].
  - exact twoEntries_has_donation.
  - intros [E|[E|[]]]; discriminate E.
  - right; left; reflexivity.
Qed.

(** ** Theme *)

(** C8, at the failing input.  With the write refused, [toggleTheme] flips
    the in-memory flag and keeps it flipped, but nothing is logged: the
    rejection of [setItem] leaves the function uncaught, the console and the
    stored theme are as before. *)
Theorem toggleTheme_refused_logs_nothing (st : State) :
  let st' := exec (toggleTheme false) st in
  isDarkMode st' = negb (isDarkMode st)
  /\ console st' = console st
  /\ outcome (toggleTheme false) st = Rejected (StorageFailure "theme")
  /\ storage st' = storage st.
Proof. repeat split. Qed.

(** With the write accepted, the flag is flipped and the new value stored. *)
Lemma toggleTheme_accepted (st : State) :
  let st' := exec (toggleTheme true) st in
  isDarkMode st' = negb (isDarkMode st)
  /\ persistedTheme st' = Some (if isDarkMode st' then "dark" else "light")
  /\ outcome (toggleTheme true) st = Fulfilled tt
  /\ console st' = console st.
Proof.
  cbv zeta. unfold exec, outcome, toggleTheme, bind, setItem, persistedTheme. cbn.
  destruct (isDarkMode st); repeat split.
Qed.

(** The sibling paths do log a refused request. *)
Lemma loadTheme_refused_logs (st : State) :
  console (exec (loadTheme false) st)
  = console st ++ [("Failed to load theme", StorageFailure "theme")]
  /\ outcome (loadTheme false) st = Fulfilled tt.
Proof. repeat split. Qed.

(** ** The view filter *)

Lemma startsWith_spec (s q : string) :
  startsWith s q = true <-> exists b, s = (q ++ b)%string.
Proof.
  revert s. induction q as [|c q IH]; intros s.
  - destruct s; simpl; (split; [intros _; eexists; reflexivity | reflexivity]).
  - destruct s as [|a s]; simpl.
    + split; [discriminate | intros [b H]; discriminate H].
    + rewrite andb_true_iff, IH, Ascii.eqb_eq. split.
      * intros [-> [b ->]]. exists b. reflexivity.
      * intros [b H]. injection H as -> ->. split; [reflexivity | exists b; reflexivity].
Qed.

(** [includes] is the substring test. *)
Lemma includes_spec (s q : string) :
  includes s q = true <-> exists a b, s = (a ++ q ++ b)%string.
Proof.
  induction s as [|c s IH]; cbn [includes]; rewrite orb_true_iff, startsWith_spec.
  - split.
    + intros [[b H] | H]; [exists EmptyString, b; exact H | discriminate H].
    + intros [a [b H]]. left. destruct a as [|c a]; [exists b; exact H | discriminate H].
  - rewrite IH. split.
    + intros [[b H] | [a [b H]]].
      * exists EmptyString, b. exact H.
      * exists (String c a), b. simpl. rewrite H. reflexivity.
    + intros [a [b H]]. destruct a as [|c' a].
      * left. exists b. exact H.
      * right. simpl in H. injection H as _ H. exists a, b. exact H.
Qed.

Lemma array_includes_spec (arr : list string) (x : string) :
  array_includes arr x = true <-> In x arr.
Proof.
  unfold array_includes. rewrite existsb_exists. split.
  - intros [y [Hy E]]. apply String.eqb_eq in E. subst y. exact Hy.
  - intros H. exists x. split; [exact H | apply String.eqb_refl].
Qed.

Lemma filter_twice {A} (f g : A -> bool) (l : list A) :
  filter f (filter g l) = filter (fun x => g x && f x) l.
Proof.
  induction l as [|x l IH]; simpl.
  - reflexivity.
  - destruct (g x); simpl; [destruct (f x)|]; rewrite IH; reflexivity.
Qed.

Section View.
Variable toLowerCase : string -> string.

Hypothesis toLowerCase_empty : toLowerCase "" = "".

Lemma ofKind_spec kind t : ofKind kind t = true <-> isIncome t = kind.
Proof. unfold ofKind. destruct kind, (isIncome t); simpl; split; congruence. Qed.

Lemma matchesCategory_spec selected t :
  matchesCategory selected t = true <-> selected = [] \/ In (category t) selected.
Proof.
  unfold matchesCategory. rewrite orb_true_iff, array_includes_spec.
  destruct selected; simpl; split; intros [H|H]; auto; discriminate.
Qed.

Lemma matchesSearch_spec q t :
  matchesSearch toLowerCase q t = true
  <-> q = "" \/ spec_ci_substring toLowerCase q (category t)
      \/ exists n, note t = Some n /\ spec_ci_substring toLowerCase q n.
Proof.
  unfold matchesSearch, spec_ci_substring.
  rewrite !orb_true_iff, String.eqb_eq, includes_spec. split.
  - intros [[H|H]|H]; [left; exact H | right; left; exact H |].
    destruct (note t) as [n|]; [|discriminate H].
    apply andb_true_iff in H. destruct H as [_ H]. apply includes_spec in H.
    right; right. exists n. split; [reflexivity | exact H].
  - intros [H|[H|[n [En H]]]]; [left; left; exact H | left; right; exact H |].
    rewrite En. destruct (String.eqb_spec n "") as [->|Hn]; simpl.
    + left; right. rewrite toLowerCase_empty in H. destruct H as [a [b H]].
      destruct a as [|? ?]; [|discriminate H]. simpl in H.
      destruct (toLowerCase q) as [|? ?]; [|discriminate H].
      exists EmptyString, (toLowerCase (category t)). reflexivity.
    + right. apply includes_spec. exact H.
Qed.

(** C6. The screen filter keeps exactly the transactions of the list that
    are of the requested kind, and (no category selected or the category is
    a selected one), and (empty search text, or the text is a
    case-insensitive substring of the category or of a present note): the
    result is the input list with the other transactions dropped, so the
    survivors keep their relative order. *)
Theorem filteredTransactions_keeps_exactly (kind : bool) (selected : list string)
    (q : string) (T : list Transaction) :
  exists keep : Transaction -> bool,
    (forall t, keep t = true <-> spec_in_view toLowerCase kind selected q t)
    /\ filteredTransactions toLowerCase kind selected q T = filter keep T
    /\ (forall t, In t (filteredTransactions toLowerCase kind selected q T)
                  <-> In t T /\ spec_in_view toLowerCase kind selected q t).
Proof.
  exists (fun t => ofKind kind t
                   && (matchesCategory selected t && matchesSearch toLowerCase q t)).
  assert (Hkeep : forall t,
    ofKind kind t && (matchesCategory selected t && matchesSearch toLowerCase q t) = true
    <-> spec_in_view toLowerCase kind selected q t).
  { intros t. unfold spec_in_view.
    rewrite !andb_true_iff, ofKind_spec, matchesCategory_spec, matchesSearch_spec.
    reflexivity. }
  split; [exact Hkeep|]. split.
  - unfold filteredTransactions. apply filter_twice.
  - intros t. unfold filteredTransactions. rewrite filter_twice, filter_In, Hkeep.
    reflexivity.
Qed.
End View.

Lemma filteredTransactions_keeps_exactly_witness :
  asciiToLowerCase "" = ""
  /\ filteredTransactions asciiToLowerCase true [] "anlass" sampleList
     = [nth 1 sampleList donation]
  /\ exists keep : Transaction -> bool,
       filteredTransactions asciiToLowerCase true ["GoFundMe"] "" sampleList
       = filter keep sampleList.
Proof.
  split; [reflexivity|]. split; [reflexivity|].
  destruct (filteredTransactions_keeps_exactly asciiToLowerCase eq_refl
              true ["GoFundMe"] "" sampleList) as [keep [_ [H _]]].
  exists keep. exact H.
Defined.

(** * Scenarios *)

Example scenario_one_income :
  totalsOf (exec (addTransaction true 1700000000123 donation) freshInstall)
  = (50%float, 0%float, 50%float).
Proof. reflexivity. Qed.

Example scenario_income_and_expense :
  totalsOf twoEntries = (50%float, 20%float, 30%float).
Proof. reflexivity. Qed.

Example scenario_refused_add_keeps_totals :
  totalsOf (exec (addTransaction false 1700000000789 donation) twoEntries)
  = totalsOf twoEntries.
Proof. reflexivity. Qed.

(** The totals are binary64 sums in collection order: the order shows. *)
Remark totalIncome_follows_collection_order :
  totalIncome [gift 9007199254740992; gift 1; gift 1] = 9007199254740992%float
  /\ totalIncome [gift 1; gift 1; gift 9007199254740992] = 9007199254740994%float.
Proof. split; reflexivity. Qed.

Example view_kind_only :
  map id (filteredTransactions asciiToLowerCase true [] "" sampleList) = [2; 1]
  /\ map id (filteredTransactions asciiToLowerCase false [] "" sampleList) = [3].
Proof. split; reflexivity. Qed.

Example view_one_category :
  map id (filteredTransactions asciiToLowerCase true ["GoFundMe"] "" sampleList) = [1].
Proof. reflexivity. Qed.

Example view_search_text :
  map id (filteredTransactions asciiToLowerCase true [] "anlass" sampleList) = [2]
  /\ map id (filteredTransactions asciiToLowerCase false [] "ANLASS" sampleList) = [3]
  /\ map id (filteredTransactions asciiToLowerCase true [] "fund" sampleList) = [1].
Proof. repeat split; reflexivity. Qed.

(** A restart reloads what an accepted write stored. *)
Example restart_reloads :
  transactions (exec (loadTransactions true) (initialState (storage twoEntries)))
  = transactions twoEntries.
Proof. reflexivity. Qed.

Example load_rejects_foreign_text :
  let st := initialState (store "transactions" (Text "not json" eq_refl) emptyStorage) in
  transactions (exec (loadTransactions true) st) = []
  /\ console (exec (loadTransactions true) st)
     = [("Failed to load transactions", ParseFailure)].
Proof. split; reflexivity. Qed.

Example toggle_twice_restores :
  isDarkMode (exec (toggleTheme true) (exec (toggleTheme true) freshInstall)) = false
  /\ persistedTheme (exec (toggleTheme true) freshInstall) = Some "dark".
Proof. split; reflexivity. Qed.

(** * Further properties of the provider *)

(** ** Filtering and sorting *)

Lemma sort_insert_front x l :
  Forall (fun y => date y <= date x) l -> sort_insert byDateDesc x l = x :: l.
Proof.
  intros H. destruct l as [|y l]; [reflexivity|].
  inversion H as [|? ? Hy _]; subst. cbn [sort_insert]. unfold byDateDesc.
  destruct (Z.leb_spec (date y - date x) 0); [reflexivity | lia].
Qed.

Lemma Forall_filter {A} (P : A -> Prop) (p : A -> bool) (l : list A) :
  Forall P l -> Forall P (filter p l).
Proof.
  induction 1 as [|x l Hx _ IH]; simpl; [constructor|].
  destruct (p x); [constructor; assumption | assumption].
Qed.

Lemma sort_insert_filter (p : Transaction -> bool) x l :
  date_desc l ->
  filter p (sort_insert byDateDesc x l)
  = if p x then sort_insert byDateDesc x (filter p l) else filter p l.
Proof.
  unfold date_desc. induction 1 as [|y l Hs IH Hy].
  - simpl. destruct (p x); reflexivity.
  - cbn [sort_insert]. unfold byDateDesc at 1.
    destruct (Z.leb_spec (date y - date x) 0) as [Hle|Hgt].
    + cbn [filter]. destruct (p x); [|reflexivity].
      symmetry. apply (sort_insert_front x (filter p (y :: l))).
      apply Forall_filter. constructor; [lia|].
      eapply Forall_impl; [|exact Hy]. unfold newer_or_same. intros z Hz. lia.
    + cbn [filter]. rewrite IH. destruct (p y), (p x); try reflexivity.
      cbn [sort_insert]. unfold byDateDesc at 2.
      destruct (Z.leb_spec (date y - date x) 0); [lia | reflexivity].
Qed.

(** Filtering commutes with the sort. *)
Lemma filter_sortByDateDesc (p : Transaction -> bool) l :
  filter p (sortByDateDesc l) = sortByDateDesc (filter p l).
Proof.
  unfold sortByDateDesc. induction l as [|x l IH]; [reflexivity|].
  cbn [array_sort filter].
  rewrite sort_insert_filter by apply (sortByDateDesc_sorted l).
  rewrite IH. destruct (p x); reflexivity.
Qed.


(** ** Memory and storage *)

Lemma loadTheme_exec dev st :
  exists b, exec (loadTheme dev) st
            = {| transactions := transactions st; isDarkMode := b;
                 storage := storage st;
                 console := console (exec (loadTheme dev) st) |}.
Proof.
  unfold exec, loadTheme, try_catch, bind, getItem. cbn.
  destruct dev; cbn; [|eexists; reflexivity].
  destruct (storage st "theme") as [v|]; cbn; [|destruct st; eexists; reflexivity].
  destruct (truthy v); cbn; [eexists; reflexivity | destruct st; eexists; reflexivity].
Qed.

Lemma jsonAmount_idem a : jsonAmount (jsonAmount a) = jsonAmount a.
Proof.
  destruct a as [x|]; [|reflexivity]. cbn [jsonAmount].
  destruct (PrimFloat.is_finite x) eqn:Ef; [|reflexivity].
  destruct (PrimFloat.is_zero x) eqn:Ez.
  - reflexivity.
  - cbn [jsonAmount]. rewrite Ef, Ez. reflexivity.
Qed.

Lemma readBack_idem t : readBack (readBack t) = readBack t.
Proof. unfold readBack. cbn. rewrite jsonAmount_idem. reflexivity. Qed.

Lemma map_readBack_idem l : map readBack (map readBack l) = map readBack l.
Proof. rewrite map_map. apply map_ext. intros t. apply readBack_idem. Qed.

Lemma sort_insert_readBack x l :
  sort_insert byDateDesc (readBack x) (map readBack l)
  = map readBack (sort_insert byDateDesc x l).
Proof.
  induction l as [|y l IH]; [reflexivity|].
  cbn [map sort_insert]. unfold byDateDesc at 1 3. cbn [readBack date].
  destruct (date y - date x <=? 0); [reflexivity|].
  cbn [map]. rewrite IH. reflexivity.
Qed.

(** Reading back commutes with the sort: it leaves the dates alone. *)
Lemma sortByDateDesc_readBack l :
  sortByDateDesc (map readBack l) = map readBack (sortByDateDesc l).
Proof.
  unfold sortByDateDesc. induction l as [|x l IH]; [reflexivity|].
  cbn [map array_sort]. rewrite IH. apply sort_insert_readBack.
Qed.

Lemma loadTransactions_read dev st :
  storage (exec (loadTransactions dev) st) = storage st
  /\ isDarkMode (exec (loadTransactions dev) st) = isDarkMode st
  /\ transactions (exec (loadTransactions dev) st)
     = match dev, storage st "transactions" with
       | true, Some (Json l) => map readBack (sortByDateDesc l)
       | _, _ => transactions st
       end.
Proof.
  unfold exec, loadTransactions, try_catch, bind, getItem. cbn.
  destruct dev; cbn; [|repeat split; reflexivity].
  destruct (storage st "transactions") as [[s Hs|l]|]; cbn.
  - destruct (negb (s =? "")%string); cbn; repeat split; reflexivity.
  - repeat split. apply sortByDateDesc_readBack.
  - repeat split; reflexivity.
Qed.

Lemma synced_run dev c st : synced st -> synced (exec (run dev c) st).
Proof.
  unfold synced. intros H. destruct c as [m| | |]; cbn [run].
  - destruct dev.
    + rewrite perform_written. cbn.
      split; [apply sortByDateDesc_sorted | right; reflexivity].
    + rewrite perform_refused. cbn. exact H.
  - destruct (loadTransactions_read dev st) as (Hs & _ & Ht). rewrite Hs, Ht.
    destruct dev; [|exact H].
    destruct (storage st "transactions") as [[s Hs'|l]|]; [exact H | | exact H].
    destruct H as [Hl _]. split; [exact Hl|]. right.
    rewrite (sortByDateDesc_fixed l Hl). apply map_readBack_idem.
  - destruct (loadTheme_keeps dev st) as [Ht Hs]. rewrite Ht, Hs. exact H.
  - unfold exec, toggleTheme, bind, setItem. cbn.
    destruct dev; [destruct (negb (isDarkMode st))|]; cbn; exact H.
Qed.

Lemma reachable_synced st : reachable st -> synced st.
Proof.
  induction 1 as [|st dev c _ IH|st _ IH].
  - reflexivity.
  - apply synced_run, IH.
  - unfold synced in *. cbn.
    destruct (storage st "transactions") as [[s Hs|l]|]; [exact IH | | reflexivity].
    split; [exact (proj1 IH) | left; reflexivity].
Qed.

(** X1. In every reachable state the in-memory collection is either still
    empty or the collection held in storage as JSON writes it: memory and
    the stored list agree transaction by transaction on every field, the
    amounts compared as they are written (a number that is not finite as
    [null], [-0] as [0]). *)
Theorem memory_is_what_is_stored (st : State) :
  reachable st ->
  transactions st = []
  \/ exists l, persisted st = Some l
               /\ map readBack (transactions st) = map readBack l.
Proof.
  intros Hr. pose proof (reachable_synced st Hr) as H.
  unfold synced, persisted in *.
  destruct (storage st "transactions") as [[s Hs|l]|].
  - destruct H.
  - destruct H as [_ [H|H]]; [left; exact H | right; exists l; split; [reflexivity | exact H]].
  - left. exact H.
Qed.

Lemma memory_is_what_is_stored_witness :
  reachable twoEntries
  /\ exists l, persisted twoEntries = Some l
               /\ map readBack (transactions twoEntries) = map readBack l.
Proof.
  split; [exact twoEntries_reachable|].
  destruct (memory_is_what_is_stored twoEntries twoEntries_reachable) as [H|H].
  - discriminate H.
  - exact H.
Defined.

Lemma exec_then {A} (m : Async unit) (k : Async A) st :
  outcome m st = Fulfilled tt -> exec (m ;; k) st = exec k (exec m st).
Proof.
  unfold outcome, exec, bind. destruct (m st) as [r st1]. cbn.
  intros ->. reflexivity.
Qed.

Lemma loadTransactions_fulfilled dev st :
  outcome (loadTransactions dev) st = Fulfilled tt.
Proof.
  unfold outcome, loadTransactions, try_catch, bind, getItem. cbn.
  destruct dev; cbn; [|reflexivity].
  destruct (storage st "transactions") as [[s Hs|l]|]; cbn; try reflexivity.
  destruct (negb (s =? "")%string); reflexivity.
Qed.

Lemma loadTheme_fulfilled dev st : outcome (loadTheme dev) st = Fulfilled tt.
Proof.
  unfold outcome, loadTheme, try_catch, bind, getItem. cbn.
  destruct dev; cbn; [|reflexivity].
  destruct (storage st "theme") as [v|]; cbn; [|reflexivity].
  destruct (truthy v); reflexivity.
Qed.

Lemma restart_unfold devT devTheme st :
  restart devT devTheme st
  = exec (loadTheme devTheme) (exec (loadTransactions devT) (initialState (storage st))).
Proof. unfold restart, startup. apply exec_then, loadTransactions_fulfilled. Qed.

Lemma restart_transactions devTheme st :
  transactions (restart true devTheme st)
  = match storage st "transactions" with
    | Some (Json l) => map readBack (sortByDateDesc l)
    | _ => []
    end.
Proof.
  rewrite restart_unfold, (proj1 (loadTheme_keeps _ _)).
  rewrite (proj2 (proj2 (loadTransactions_read true _))). cbn.
  destruct (storage st "transactions") as [[s Hs|l]|]; reflexivity.
Qed.

(** X2. Persist and reload: after a mutating operation whose write was
    accepted, a restart whose read is honoured brings back the in-memory
    collection the operation left, in the same order and with every field
    as it was, except that an amount that is not a finite number comes back
    as [null] and [-0] as [0]. *)
Theorem accepted_write_survives_restart (st : State) (m : Mutation) (devTheme : bool) :
  transactions (restart true devTheme (exec (perform true m) st))
  = map readBack (transactions (exec (perform true m) st)).
Proof.
  rewrite restart_transactions, perform_written. cbn.
  rewrite sortByDateDesc_idem. reflexivity.
Qed.

(** X3. When the read of the start-up load is refused, memory stays empty,
    and the first accepted Add then stores the new transaction alone: the
    collection that was in storage is overwritten. *)
Theorem refused_load_then_add_overwrites (st : State) (devTheme : bool) (now : Z)
    (t : Transaction) :
  let st1 := restart false devTheme st in
  transactions st1 = []
  /\ storage st1 = storage st
  /\ persisted (exec (addTransaction true now t) st1) = Some [withId now t].
Proof.
  cbv zeta.
  assert (H : transactions (restart false devTheme st) = []
              /\ storage (restart false devTheme st) = storage st).
  { rewrite restart_unfold.
    destruct (loadTheme_keeps devTheme
                (exec (loadTransactions false) (initialState (storage st)))) as [Ht Hs].
    rewrite Ht, Hs. split; reflexivity. }
  destruct H as [Ht Hs]. split; [exact Ht|]. split; [exact Hs|].
  unfold persisted. rewrite (perform_written (Add now t)). cbn. rewrite Ht.
  reflexivity.
Qed.

(** ** The theme across restarts *)

Lemma loadTheme_read dev st :
  isDarkMode (exec (loadTheme dev) st)
  = match dev, storage st "theme" with
    | true, Some v => if truthy v then is_dark v else isDarkMode st
    | _, _ => isDarkMode st
    end.
Proof.
  unfold exec, loadTheme, try_catch, bind, getItem. cbn.
  destruct dev; cbn; [|reflexivity].
  destruct (storage st "theme") as [v|]; cbn; [|reflexivity].
  destruct (truthy v); reflexivity.
Qed.



Lemma loadTheme_console dev d :
  exists log, forall st, storage st = d ->
    console (exec (loadTheme dev) st) = console st ++ log.
Proof.
  destruct dev.
  - destruct (d "theme") as [v|] eqn:E.
    + exists []. intros st <-.
      unfold exec, loadTheme, try_catch, bind, getItem. cbn. rewrite E.
      destruct (truthy v); cbn; symmetry; apply app_nil_r.
    + exists []. intros st <-.
      unfold exec, loadTheme, try_catch, bind, getItem. cbn. rewrite E.
      cbn. symmetry; apply app_nil_r.
  - exists [("Failed to load theme", StorageFailure "theme")]. intros st _. reflexivity.
Qed.

Lemma loadTransactions_console dev d :
  exists log, forall st, storage st = d ->
    console (exec (loadTransactions dev) st) = console st ++ log.
Proof.
  destruct dev.
  - destruct (d "transactions") as [[s Hs|l]|] eqn:E.
    + destruct (negb (s =? "")%string) eqn:Es.
      * exists [("Failed to load transactions", ParseFailure)]. intros st <-.
        unfold exec, loadTransactions, try_catch, bind, getItem. cbn. rewrite E.
        cbn. rewrite Es. reflexivity.
      * exists []. intros st <-.
        unfold exec, loadTransactions, try_catch, bind, getItem. cbn. rewrite E.
        cbn. rewrite Es. cbn. symmetry; apply app_nil_r.
    + exists []. intros st <-.
      unfold exec, loadTransactions, try_catch, bind, getItem. cbn. rewrite E.
      cbn. symmetry; apply app_nil_r.
    + exists []. intros st <-.
      unfold exec, loadTransactions, try_catch, bind, getItem. cbn. rewrite E.
      cbn. symmetry; apply app_nil_r.
  - exists [("Failed to load transactions", StorageFailure "transactions")].
    intros st _. reflexivity.
Qed.

(** X5. The two loads of the mount effect do not interfere: run in either
    order, with any answers of the device, they leave the same collection,
    the same theme flag and the same storage, and log the same entries. *)
Theorem startup_loads_commute (devT devTheme : bool) (st : State) :
  let a := exec (loadTheme devTheme) (exec (loadTransactions devT) st) in
  let b := exec (loadTransactions devT) (exec (loadTheme devTheme) st) in
  transactions a = transactions b
  /\ isDarkMode a = isDarkMode b
  /\ storage a = storage b
  /\ Permutation (console a) (console b).
Proof.
  cbv zeta. split; [|split; [|split]].
  - rewrite (proj1 (loadTheme_keeps _ _)).
    rewrite !(proj2 (proj2 (loadTransactions_read _ _))).
    rewrite (proj2 (loadTheme_keeps _ _)), (proj1 (loadTheme_keeps _ _)). reflexivity.
  - rewrite loadTheme_read, (proj1 (proj2 (loadTransactions_read _ _))).
    rewrite (proj1 (loadTransactions_read _ _)), (proj1 (proj2 (loadTransactions_read _ _))).
    rewrite loadTheme_read. reflexivity.
  - rewrite (proj2 (loadTheme_keeps _ _)), !(proj1 (loadTransactions_read _ _)).
    rewrite (proj2 (loadTheme_keeps _ _)). reflexivity.
  - destruct (loadTheme_console devTheme (storage st)) as [logTheme HTheme].
    destruct (loadTransactions_console devT (storage st)) as [logT HT].
    rewrite (HTheme (exec (loadTransactions devT) st))
      by apply (proj1 (loadTransactions_read _ _)).
    rewrite (HT (exec (loadTheme devTheme) st)) by apply (proj2 (loadTheme_keeps _ _)).
    rewrite (HT st), (HTheme st) by reflexivity.
    rewrite <- !app_assoc. apply Permutation_app_head, Permutation_app_comm.
Qed.

(** ** How the mutating operations compose *)

(** X6. Add then Delete is a round trip: in a date-ordered collection that
    does not have the clock reading as an id, an accepted Add followed by an
    accepted Delete of the new id leaves the in-memory collection and the
    stored one exactly as the collection was. *)
Theorem add_then_delete_restores (st : State) (now : Z) (t : Transaction) :
  date_desc (transactions st) ->
  (forall x, In x (transactions st) -> id x <> now) ->
  let st' := exec (deleteTransaction true now) (exec (addTransaction true now t) st) in
  transactions st' = transactions st
  /\ persisted st' = Some (transactions st).
Proof.
  intros Hs Hfresh st'.
  assert (H : transactions st' = transactions st).
  { subst st'. rewrite deleteTransaction_written, addTransaction_written.
    unfold filtered. rewrite filter_sortByDateDesc, sortByDateDesc_idem.
    cbn [filter withId with_id_pinned id]. rewrite Z.eqb_refl. cbn [negb].
    change (filter _ (transactions st)) with (filtered now (transactions st)).
    rewrite filtered_absent by exact Hfresh.
    apply sortByDateDesc_fixed, Hs. }
  split; [exact H|]. rewrite <- H. reflexivity.
Qed.

Lemma add_then_delete_restores_witness :
  date_desc (transactions twoEntries)
  /\ (forall x, In x (transactions twoEntries) -> id x <> 42)
  /\ transactions (exec (deleteTransaction true 42)
                        (exec (addTransaction true 42 donation) twoEntries))
     = transactions twoEntries.
Proof.
  split; [exact twoEntries_sorted|]. split; [exact twoEntries_lacks_42|].
  exact (proj1 (add_then_delete_restores twoEntries 42 donation
                  twoEntries_sorted twoEntries_lacks_42)).
Defined.

Lemma NoDup_ids_filter (p : Transaction -> bool) ts :
  NoDup (map id ts) -> NoDup (map id (filter p ts)).
Proof.
  induction ts as [|t ts IH]; simpl; intros H; [constructor|].
  inversion H as [|? ? Hnotin Hnd]; subst.
  destruct (p t); simpl; [|apply IH, Hnd].
  constructor; [|apply IH, Hnd].
  intros Hin. apply Hnotin. apply in_map_iff in Hin. destruct Hin as [x [Ex Hx]].
  apply in_map_iff. exists x. split; [exact Ex|]. apply filter_In in Hx. tauto.
Qed.

(** X7. Update and Delete never create a duplicate id, whatever the device
    answers: an Update leaves the ids of the collection as they are (the
    same ids, each as often as before), and a Delete only removes ids. *)
Theorem update_and_delete_keep_ids (st : State) (dev : bool) (i : Z)
    (fields : Transaction) :
  Permutation (map id (transactions (exec (updateTransaction dev i fields) st)))
              (map id (transactions st))
  /\ (forall x, In x (map id (transactions (exec (deleteTransaction dev i) st))) ->
                In x (map id (transactions st)))
  /\ (NoDup (map id (transactions st)) ->
      NoDup (map id (transactions (exec (updateTransaction dev i fields) st)))
      /\ NoDup (map id (transactions (exec (deleteTransaction dev i) st)))).
Proof.
  assert (Hu : Permutation (map id (transactions (exec (updateTransaction dev i fields) st)))
                           (map id (transactions st))).
  { destruct dev.
    - rewrite updateTransaction_written, <- (updated_ids i fields (transactions st)).
      apply Permutation_map, sortByDateDesc_perm.
    - rewrite updateTransaction_refused. apply Permutation_refl. }
  split; [exact Hu|]. split.
  - intros x Hx. destruct dev.
    + rewrite deleteTransaction_written in Hx.
      apply in_map_iff in Hx. destruct Hx as [y [Ey Hy]].
      apply sortByDateDesc_In, filtered_In in Hy.
      apply in_map_iff. exists y. tauto.
    + rewrite deleteTransaction_refused in Hx. exact Hx.
  - intros Hnd. split.
    + eapply Permutation_NoDup; [apply Permutation_sym, Hu | exact Hnd].
    + destruct dev.
      * rewrite deleteTransaction_written.
        eapply Permutation_NoDup.
        -- apply Permutation_sym, Permutation_map, sortByDateDesc_perm.
        -- apply NoDup_ids_filter, Hnd.
      * rewrite deleteTransaction_refused. exact Hnd.
Qed.

Lemma updated_fixed i u ts :
  (forall x, In x ts -> id x = i -> x = with_id u i) -> updated i u ts = ts.
Proof.
  unfold updated. induction ts as [|t ts IH]; intros H; simpl; [reflexivity|].
  rewrite IH by (intros x Hx; apply H; right; exact Hx).
  destruct (Z.eqb_spec (id t) i) as [E|_]; [|reflexivity].
  rewrite <- (H t (or_introl eq_refl) E). reflexivity.
Qed.

(** X8. Repeating an Update changes nothing more: two Updates with the same
    id and fields leave the in-memory collection of a single one whose write
    is accepted as soon as one of the two writes is. *)
Theorem update_twice (st : State) (i : Z) (fields : Transaction) (dev1 dev2 : bool) :
  transactions (exec (updateTransaction dev2 i fields)
                     (exec (updateTransaction dev1 i fields) st))
  = transactions (exec (updateTransaction (dev1 || dev2) i fields) st).
Proof.
  destruct dev1, dev2; cbn [orb];
    repeat rewrite ?updateTransaction_written, ?updateTransaction_refused;
    try reflexivity.
  rewrite updated_fixed; [apply sortByDateDesc_idem|].
  intros x Hx E. apply sortByDateDesc_In, updated_In in Hx.
  destruct Hx as [[-> _] | [_ N]]; [reflexivity | contradiction].
Qed.

Lemma filter_insert_other (p : Transaction -> bool) x l :
  date_desc l -> p x = false ->
  filter p (sortByDateDesc (x :: l)) = filter p l.
Proof.
  intros Hs Hp. rewrite filter_sortByDateDesc. cbn [filter]. rewrite Hp.
  rewrite <- filter_sortByDateDesc, sortByDateDesc_fixed by exact Hs. reflexivity.
Qed.

(** X9. The two totals are independent: in a date-ordered collection,
    adding an expense leaves [totalIncome] bit for bit as it was, and adding
    an income leaves [totalExpense] as it was, whatever the device answers. *)
Theorem add_leaves_other_total (st : State) (dev : bool) (now : Z) (t : Transaction) :
  date_desc (transactions st) ->
  let st' := exec (addTransaction dev now t) st in
  (isIncome t = false -> totalIncome (transactions st') = totalIncome (transactions st))
  /\ (isIncome t = true -> totalExpense (transactions st') = totalExpense (transactions st)).
Proof.
  intros Hs st'. subst st'. destruct dev.
  - rewrite addTransaction_written. unfold totalIncome, totalExpense. split; intros Hk.
    + rewrite filter_insert_other; [reflexivity | exact Hs | exact Hk].
    + rewrite filter_insert_other; [reflexivity | exact Hs | cbn; rewrite Hk; reflexivity].
  - rewrite addTransaction_refused. split; reflexivity.
Qed.

Lemma add_leaves_other_total_witness :
  date_desc (transactions twoEntries)
  /\ totalIncome (transactions (exec (addTransaction true 42 transfer) twoEntries))
     = totalIncome (transactions twoEntries).
Proof.
  split; [exact twoEntries_sorted|].
  apply (add_leaves_other_total twoEntries true 42 transfer twoEntries_sorted).
  reflexivity.
Defined.

(** * Properties of the screens *)

(** ** The home screen *)

Lemma date_desc_app a b :
  date_desc (a ++ b) -> forall x y, In x a -> In y b -> date y <= date x.
Proof.
  unfold date_desc. induction a as [|z a IH]; intros H x y Hx Hy.
  - destruct Hx.
  - cbn in H. inversion H as [|? ? Hs Hz]; subst. destruct Hx as [->|Hx].
    + rewrite Forall_forall in Hz. apply (Hz y). apply in_or_app. right. exact Hy.
    + exact (IH Hs x y Hx Hy).
Qed.

(** X10. The home screen lists the first eight transactions of the
    collection, all of them when there are fewer; in every reachable state
    these are the most recent ones: no transaction left out is more recent
    than a listed one. *)
Theorem latest_are_most_recent (st : State) :
  reachable st ->
  List.length (latest (transactions st)) = Nat.min 8 (List.length (transactions st))
  /\ transactions st = latest (transactions st) ++ skipn 8 (transactions st)
  /\ date_desc (latest (transactions st))
  /\ forall x y, In x (latest (transactions st)) -> In y (skipn 8 (transactions st)) ->
                 date y <= date x.
Proof.
  intros Hr. pose proof (proj1 (reachable_well_kept st Hr)) as Hs.
  unfold latest. split; [apply length_firstn|].
  split; [symmetry; apply firstn_skipn|].
  rewrite <- (firstn_skipn 8 (transactions st)) in Hs. split.
  - clear Hr. revert Hs. generalize (skipn 8 (transactions st)).
    generalize (firstn 8 (transactions st)). unfold date_desc.
    induction l as [|z a IH]; intros b H; [constructor|].
    cbn in H. inversion H as [|? ? Hs Hz]; subst.
    constructor; [exact (IH b Hs)|].
    rewrite Forall_forall in *. intros y Hy. apply Hz, in_or_app. left. exact Hy.
  - exact (date_desc_app _ _ Hs).
Qed.

Lemma latest_are_most_recent_witness :
  reachable twoEntries
  /\ List.length (latest (transactions twoEntries))
     = Nat.min 8 (List.length (transactions twoEntries))
  /\ date_desc (latest (transactions twoEntries)).
Proof.
  split; [exact twoEntries_reachable|].
  destruct (latest_are_most_recent twoEntries twoEntries_reachable) as (Hlen & _ & Hs & _).
  split; [exact Hlen | exact Hs].
Defined.

(** ** The list screens *)

Lemma filter_split_perm {A} (p : A -> bool) (l : list A) :
  Permutation (filter p l ++ filter (fun x => negb (p x)) l) l.
Proof.
  induction l as [|x l IH]; simpl; [apply perm_nil|].
  destruct (p x); simpl.
  - apply perm_skip, IH.
  - eapply perm_trans; [apply Permutation_sym, Permutation_middle | apply perm_skip, IH].
Qed.

Lemma filter_all {A} (p : A -> bool) (l : list A) :
  (forall x, In x l -> p x = true) -> filter p l = l.
Proof.
  induction l as [|x l IH]; intros H; simpl; [reflexivity|].
  rewrite (H x (or_introl eq_refl)). f_equal. apply IH.
  intros y Hy. apply H. right. exact Hy.
Qed.

Lemma filteredTransactions_unfiltered lc kind ts :
  filteredTransactions lc kind [] "" ts = filter (ofKind kind) ts.
Proof. unfold filteredTransactions. apply filter_all. reflexivity. Qed.

(** X11. Without a selected category and with an empty search text the
    income screen and the expense screen split the collection between them:
    every transaction is listed on exactly one of the two.  Any choice of
    categories and search text only removes entries from that listing. *)
Theorem screens_split_the_collection (lc : string -> string) (ts : list Transaction) :
  Permutation (filteredTransactions lc true [] "" ts
               ++ filteredTransactions lc false [] "" ts) ts
  /\ forall kind selected q t,
       In t (filteredTransactions lc kind selected q ts) ->
       In t (filteredTransactions lc kind [] "" ts).
Proof.
  split.
  - rewrite !filteredTransactions_unfiltered. apply (filter_split_perm isIncome).
  - intros kind selected q t Ht. rewrite filteredTransactions_unfiltered.
    unfold filteredTransactions in Ht. apply filter_In in Ht. tauto.
Qed.



(** ** The category chips of the filter bar *)

Lemma handleCategoryToggle_In c prev d :
  In d (handleCategoryToggle c prev)
  <-> (d = c /\ ~ In c prev) \/ (d <> c /\ In d prev).
Proof.
  unfold handleCategoryToggle.
  destruct (array_includes prev c) eqn:E.
  - apply array_includes_spec in E. rewrite filter_In. split.
    + intros [Hd Hn]. right. split; [|exact Hd].
      intros ->. rewrite String.eqb_refl in Hn. discriminate.
    + intros [[-> Hn] | [Hn Hd]]; [contradiction|].
      split; [exact Hd|]. apply String.eqb_neq in Hn. rewrite Hn. reflexivity.
  - assert (Hn : ~ In c prev).
    { intros H. apply array_includes_spec in H. congruence. }
    rewrite in_app_iff. split.
    + intros [Hd | [<- | []]].
      * right. split; [intros ->; contradiction | exact Hd].
      * left. split; [reflexivity | exact Hn].
    + intros [[-> _] | [_ Hd]]; [right; left; reflexivity | left; exact Hd].
Qed.

(** X13. Tapping a category chip flips that category in the selection and
    no other: afterwards the category is selected exactly when it was not
    before, every other category is selected exactly when it was, and a
    selection without repetitions stays without repetitions. *)
Theorem chip_toggles_one_category (c : string) (prev : list string) :
  (In c (handleCategoryToggle c prev) <-> ~ In c prev)
  /\ (forall d, d <> c -> (In d (handleCategoryToggle c prev) <-> In d prev))
  /\ (NoDup prev -> NoDup (handleCategoryToggle c prev)).
Proof.
  split; [|split].
  - rewrite handleCategoryToggle_In. split.
    + intros [[_ H] | [H _]]; [exact H | contradiction H; reflexivity].
    + intros H. left. split; [reflexivity | exact H].
  - intros d Hd. rewrite handleCategoryToggle_In. split.
    + intros [[H _] | [_ H]]; [contradiction | exact H].
    + intros H. right. split; assumption.
  - intros Hnd. unfold handleCategoryToggle.
    destruct (array_includes prev c) eqn:E.
    + apply NoDup_filter, Hnd.
    + apply NoDup_app; [exact Hnd | constructor; [intros [] | constructor] |].
      intros d Hd [<- | []]. apply array_includes_spec in Hd. congruence.
Qed.

Lemma matchesCategory_same_members sel sel' t :
  (forall d, In d sel' <-> In d sel) ->
  matchesCategory sel' t = matchesCategory sel t.
Proof.
  intros H.
  destruct (matchesCategory sel t) eqn:E.
  - apply matchesCategory_spec in E. apply matchesCategory_spec.
    destruct E as [-> | E].
    + left. destruct sel' as [|d sel']; [reflexivity|].
      destruct (proj1 (H d) (or_introl eq_refl)).
    + right. apply H, E.
  - destruct (matchesCategory sel' t) eqn:E'; [|reflexivity].
    apply matchesCategory_spec in E'.
    assert (E2 : matchesCategory sel t = true); [|congruence].
    apply matchesCategory_spec. destruct E' as [-> | E'].
    + left. destruct sel as [|d sel]; [reflexivity|].
      destruct (proj2 (H d) (or_introl eq_refl)).
    + right. apply H, E'.
Qed.

(** X14. Tapping the same chip twice brings the screen back: the selection
    has the same categories as before, and the filtered list is the same
    list. *)
Theorem chip_twice_restores_list (lc : string -> string) (c : string)
    (prev : list string) (kind : bool) (q : string) (ts : list Transaction) :
  (forall d, In d (handleCategoryToggle c (handleCategoryToggle c prev)) <-> In d prev)
  /\ filteredTransactions lc kind (handleCategoryToggle c (handleCategoryToggle c prev)) q ts
     = filteredTransactions lc kind prev q ts.
Proof.
  assert (H : forall d,
    In d (handleCategoryToggle c (handleCategoryToggle c prev)) <-> In d prev).
  { intros d. rewrite !handleCategoryToggle_In.
    destruct (String.eqb_spec d c) as [->|Hd].
    - split.
      + intros [[_ Hn] | [Hn _]]; [|contradiction Hn; reflexivity].
        destruct (in_dec string_dec c prev) as [Hin|Hout]; [exact Hin|].
        contradiction Hn. left. split; [reflexivity | exact Hout].
      + intros Hin. left. split; [reflexivity|].
        intros [[_ Hn] | [Hn _]]; [contradiction | contradiction Hn; reflexivity].
    - split.
      + intros [[He _] | [_ [[He _] | [_ Hin]]]]; try contradiction. exact Hin.
      + intros Hin. right. split; [exact Hd|]. right. split; assumption. }
  split; [exact H|].
  unfold filteredTransactions. apply filter_ext. intros t.
  rewrite (matchesCategory_same_members prev _ t H). reflexivity.
Qed.

(** ** The notices of the list screens *)

Lemma length_zero_nil {A} (l : list A) : Nat.eqb (List.length l) 0 = true <-> l = [].
Proof. destruct l; simpl; split; intros H; try reflexivity; discriminate. Qed.

(** X15. A list screen never shows an empty list: it shows a notice instead.
    The notice that nothing of the kind exists yet appears exactly when the
    collection has no transaction of the kind; the notice that no entry
    matches the filters appears only while a category is selected or a
    search text is set. *)
Theorem notice_tells_why_empty (lc : string -> string) (kind : bool)
    (selected : list string) (q : string) (ts : list Transaction) :
  match screenBody lc kind selected q ts with
  | ItemList l => l <> [] /\ l = filteredTransactions lc kind selected q ts
  | Notice text =>
      filteredTransactions lc kind selected q ts = []
      /\ ((text = noneYet kind /\ filter (ofKind kind) ts = [])
          \/ (text = noMatch /\ filter (ofKind kind) ts <> []
              /\ (selected <> [] \/ q <> "")))
  end.
Proof.
  unfold screenBody.
  destruct (Nat.eqb (List.length (filteredTransactions lc kind selected q ts)) 0) eqn:E.
  - apply length_zero_nil in E. split; [exact E|].
    destruct (Nat.eqb (List.length (filter (ofKind kind) ts)) 0) eqn:E2.
    + left. split; [reflexivity | apply length_zero_nil, E2].
    + right. split; [reflexivity|].
      assert (Hne : filter (ofKind kind) ts <> []).
      { intros H. apply length_zero_nil in H. congruence. }
      split; [exact Hne|].
      destruct selected as [|c selected]; [|left; discriminate].
      destruct (String.eqb_spec q "") as [->|Hq]; [|right; exact Hq].
      rewrite filteredTransactions_unfiltered in E. contradiction.
  - split; [|reflexivity]. intros H. apply length_zero_nil in H. congruence.
Qed.

(** ** The category registry *)

Lemma find_value_spec (cat : string) (l : list Registry.Category) :
  match find (fun c => String.eqb (Registry.value c) cat) l with
  | Some c => In c l /\ Registry.value c = cat
  | None => forall c, In c l -> Registry.value c <> cat
  end.
Proof.
  induction l as [|c l IH]; simpl.
  - intros c [].
  - destruct (String.eqb_spec (Registry.value c) cat) as [E|N].
    + split; [left; reflexivity | exact E].
    + destruct (find _ l) as [c'|].
      * destruct IH as [Hin E]. split; [right; exact Hin | exact E].
      * intros c' [<- | Hc']; [exact N | apply IH, Hc'].
Qed.

(** X16. The colour and icon lookups never fail.  For a category of the
    registry of the given kind they return that entry's colour and icon; for
    any other string they return the fallback: ['#16a34a'] for an income,
    ['#ef4444'] for an expense, and the icon ['circle']. *)
Theorem registry_lookup_or_fallback (cat : string) (isIncome : bool) :
  (exists c, In c (Registry.pool isIncome) /\ Registry.value c = cat
             /\ Registry.categoryColor cat isIncome = Registry.color c
             /\ Registry.categoryIcon cat isIncome = Registry.icon c)
  \/ ((forall c, In c (Registry.pool isIncome) -> Registry.value c <> cat)
      /\ Registry.categoryColor cat isIncome = (if isIncome then "#16a34a" else "#ef4444")
      /\ Registry.categoryIcon cat isIncome = "circle").
Proof.
  unfold Registry.categoryColor, Registry.categoryIcon, Registry.lookup.
  pose proof (find_value_spec cat (Registry.pool isIncome)) as H.
  destruct (find _ (Registry.pool isIncome)) as [c|].
  - left. exists c. destruct H as [Hin E]. split; [exact Hin|]. split; [exact E|].
    clear E. destruct isIncome; cbn in Hin;
      repeat (destruct Hin as [<- | Hin]; [split; reflexivity|]); destruct Hin.
  - right. split; [exact H | split; reflexivity].
Qed.

(** * Properties of what the screens send to the provider *)

Lemma perform_Forall (P : Transaction -> Prop) dev m st :
  Forall P (attempted m (transactions st)) ->
  Forall P (transactions st) /\ (forall l, persisted st = Some l -> Forall P l) ->
  Forall P (transactions (exec (perform dev m) st))
  /\ (forall l, persisted (exec (perform dev m) st) = Some l -> Forall P l).
Proof.
  intros Ha [Hm Hp]. destruct dev.
  - rewrite perform_written.
    assert (Hs : Forall P (sortByDateDesc (attempted m (transactions st)))).
    { eapply Permutation_Forall; [apply Permutation_sym, sortByDateDesc_perm | exact Ha]. }
    split; [exact Hs|]. unfold persisted. cbn. intros l [= <-]. exact Hs.
  - rewrite perform_refused. split; [exact Hm | exact Hp].
Qed.

Lemma restart_storage devT devTheme st : storage (restart devT devTheme st) = storage st.
Proof.
  rewrite restart_unfold, (proj2 (loadTheme_keeps _ _)).
  rewrite (proj1 (loadTransactions_read _ _)). reflexivity.
Qed.

Lemma restart_Forall (P : Transaction -> Prop) devT devTheme st :
  (forall t, P t -> P (readBack t)) ->
  (forall l, persisted st = Some l -> Forall P l) ->
  Forall P (transactions (restart devT devTheme st))
  /\ (forall l, persisted (restart devT devTheme st) = Some l -> Forall P l).
Proof.
  intros Hback Hp. split.
  - rewrite restart_unfold, (proj1 (loadTheme_keeps _ _)).
    rewrite (proj2 (proj2 (loadTransactions_read _ _))). cbn.
    unfold persisted in Hp.
    destruct devT; [|constructor].
    destruct (storage st "transactions") as [[s Hs|l]|]; try constructor.
    apply Forall_map.
    eapply Permutation_Forall; [apply Permutation_sym, sortByDateDesc_perm|].
    eapply Forall_impl; [exact Hback|]. apply Hp. reflexivity.
  - unfold persisted in *. rewrite restart_storage. exact Hp.
Qed.

Lemma updated_Forall (P : Transaction -> Prop) i u ts :
  P (with_id u i) -> Forall P ts -> Forall P (updated i u ts).
Proof.
  intros Hu H. unfold updated. induction H as [|t ts Ht _ IH]; simpl; [constructor|].
  constructor; [|exact IH]. destruct (id t =? i); assumption.
Qed.

(** A number that is not [<= 0] is not a zero. *)
Lemma not_le_zero_not_zero (x : float) :
  (x <=? 0)%float = false -> PrimFloat.is_zero x = false.
Proof.
  unfold PrimFloat.is_zero. change zero with 0%float. rewrite leb_spec, eqb_spec.
  unfold SFleb, SFeqb.
  destruct (SFcompare (Prim2SF x) (Prim2SF 0)) as [c|]; [|reflexivity].
  destruct c; intros H; [discriminate H | discriminate H | reflexivity].
Qed.

Lemma entered_readBack t : entered t -> entered (readBack t).
Proof.
  unfold entered. intros [Hp Ha]. split; [exact Hp|]. cbn [readBack amount].
  destruct (amount t) as [x|]; [|exact I]. cbn [jsonAmount].
  destruct (PrimFloat.is_finite x); [|exact I].
  unfold invalidAmount in Ha. apply orb_false_iff in Ha.
  rewrite (not_le_zero_not_zero x (proj2 Ha)).
  apply orb_false_iff. exact Ha.
Qed.

Section ModalFacts.
Variable parseFloat : string -> float.
Variable trim : string -> string.

Lemma gesture_entered dev g st :
  Forall entered (transactions st)
  /\ (forall l, persisted st = Some l -> Forall entered l) ->
  Forall entered (transactions (gesture parseFloat trim dev g st))
  /\ (forall l, persisted (gesture parseFloat trim dev g st) = Some l ->
      Forall entered l).
Proof.
  intros H. destruct g as [k a c d n now | pos a c d n | pos confirmed | | devTheme];
    cbn [gesture].
  - unfold AddModal_handleSave.
    destruct (invalidAmount (parseAmount parseFloat a)) eqn:E; [exact H|].
    apply (perform_Forall entered dev (Add now _) st); [|exact H].
    constructor; [split; [reflexivity | exact E] | exact (proj1 H)].
  - destruct (nth_error (transactions st) pos) as [t|] eqn:Et; [|exact H].
    unfold EditModal_handleSave.
    destruct (invalidAmount (parseAmount parseFloat a)) eqn:E; [exact H|].
    apply (perform_Forall entered dev (Update _ _) st); [|exact H].
    apply updated_Forall; [|exact (proj1 H)].
    split; [|exact E]. cbn.
    apply nth_error_In in Et. destruct H as [Hm _].
    rewrite Forall_forall in Hm. exact (proj1 (Hm t Et)).
  - destruct (nth_error (transactions st) pos) as [t|]; [|exact H].
    destruct confirmed; [|exact H].
    apply (perform_Forall entered dev (Delete _) st); [|exact H].
    apply Forall_filter, (proj1 H).
  - destruct (toggleTheme_keeps dev st) as [Ht Hs]. rewrite Ht, Hs. exact H.
  - apply restart_Forall; [exact entered_readBack | exact (proj2 H)].
Qed.

(** X17. Whatever is typed into the modals, [isPinned] is false throughout
    and no amount is ever [NaN] or a number [<= 0]: every amount is a number
    that passed the check of the modal, or [null], which is what an amount
    that is not finite reads back as after a restart.  This holds in memory
    and in storage after every sequence of gestures on a fresh install, with
    any answers of the device. *)
Theorem modals_keep_amounts_valid (gs : list (bool * Gesture)) :
  Forall entered (transactions (played parseFloat trim gs freshInstall))
  /\ (forall l, persisted (played parseFloat trim gs freshInstall) = Some l ->
      Forall entered l).
Proof.
  unfold played.
  assert (H0 : Forall entered (transactions freshInstall)
               /\ (forall l, persisted freshInstall = Some l -> Forall entered l)).
  { split; [constructor | discriminate]. }
  revert H0. generalize freshInstall.
  induction gs as [|[dev g] gs IH]; intros st H; cbn [fold_left fst snd].
  - exact H.
  - apply IH, gesture_entered, H.
Qed.
End ModalFacts.

Lemma unique_id_same (ts : list Transaction) x y :
  NoDup (map id ts) -> In x ts -> In y ts -> id x = id y -> x = y.
Proof.
  induction ts as [|t ts IH]; intros Hnd Hx Hy E; [destruct Hx|].
  cbn in Hnd. inversion Hnd as [|? ? Hnotin Hnd']; subst.
  destruct Hx as [->|Hx], Hy as [->|Hy].
  - reflexivity.
  - exfalso. apply Hnotin. rewrite E. apply in_map, Hy.
  - exfalso. apply Hnotin. rewrite <- E. apply in_map, Hx.
  - exact (IH Hnd' Hx Hy E).
Qed.

Lemma updated_identity (ts : list Transaction) t u :
  NoDup (map id ts) -> In t ts -> identity (with_id u (id t)) = identity t ->
  map identity (updated (id t) u ts) = map identity ts.
Proof.
  intros Hnd Ht Hu. unfold updated. rewrite map_map. apply map_ext_in.
  intros x Hx. destruct (Z.eqb_spec (id x) (id t)) as [E|_]; [|reflexivity].
  rewrite (unique_id_same ts x t Hnd Hx Ht E). exact Hu.
Qed.

Lemma perform_list_property (Q : list Transaction -> Prop) dev m st :
  (forall l l', Permutation l l' -> Q l -> Q l') ->
  Q (attempted m (transactions st)) ->
  Q (transactions st) /\ (forall l, persisted st = Some l -> Q l) ->
  Q (transactions (exec (perform dev m) st))
  /\ (forall l, persisted (exec (perform dev m) st) = Some l -> Q l).
Proof.
  intros Hperm Ha [Hm Hp]. destruct dev.
  - rewrite perform_written.
    assert (Hs : Q (sortByDateDesc (attempted m (transactions st)))).
    { eapply Hperm; [apply Permutation_sym, sortByDateDesc_perm | exact Ha]. }
    split; [exact Hs|]. unfold persisted. cbn. intros l [= <-]. exact Hs.
  - rewrite perform_refused. split; [exact Hm | exact Hp].
Qed.

Lemma restart_list_property (Q : list Transaction -> Prop) devT devTheme st :
  (forall l l', Permutation l l' -> Q l -> Q l') -> Q [] ->
  (forall l, Q l -> Q (map readBack l)) ->
  (forall l, persisted st = Some l -> Q l) ->
  Q (transactions (restart devT devTheme st))
  /\ (forall l, persisted (restart devT devTheme st) = Some l -> Q l).
Proof.
  intros Hperm Hnil Hback Hp. split.
  - rewrite restart_unfold, (proj1 (loadTheme_keeps _ _)).
    rewrite (proj2 (proj2 (loadTransactions_read _ _))). cbn.
    unfold persisted in Hp.
    destruct devT; [|exact Hnil].
    destruct (storage st "transactions") as [[s Hs|l]|]; try exact Hnil.
    apply Hback.
    eapply Hperm; [apply Permutation_sym, sortByDateDesc_perm|].
    apply Hp. reflexivity.
  - unfold persisted in *. rewrite restart_storage. exact Hp.
Qed.

Lemma ids_below_readBack b (l : list Transaction) :
  NoDup (map id l) /\ Forall (fun x => id x < b) l ->
  NoDup (map id (map readBack l)) /\ Forall (fun x => id x < b) (map readBack l).
Proof.
  intros [Hnd Hb]. split.
  - rewrite map_map. exact Hnd.
  - apply Forall_map. exact Hb.
Qed.

Lemma ids_below_perm b (l l' : list Transaction) :
  Permutation l l' ->
  NoDup (map id l) /\ Forall (fun x => id x < b) l ->
  NoDup (map id l') /\ Forall (fun x => id x < b) l'.
Proof.
  intros Hp [Hnd Hb]. split.
  - eapply Permutation_NoDup; [apply Permutation_map, Hp | exact Hnd].
  - eapply Permutation_Forall; [exact Hp | exact Hb].
Qed.

Lemma ids_below_le b b' (l : list Transaction) :
  b <= b' ->
  NoDup (map id l) /\ Forall (fun x => id x < b) l ->
  NoDup (map id l) /\ Forall (fun x => id x < b') l.
Proof.
  intros Hle [Hnd Hb]. split; [exact Hnd|].
  eapply Forall_impl; [|exact Hb]. cbn. intros x Hx. lia.
Qed.

Section GestureFacts.
Variable parseFloat : string -> float.
Variable trim : string -> string.

(** X18. Saving the edit modal never changes what a transaction is: with
    unique ids, after the gesture the collection has the same transactions
    by id, each of the same kind and with the same pin as before, whatever
    was typed and whatever the device answers.  Only amount, category, date
    and note of the edited one can differ. *)
Theorem edit_keeps_id_and_kind (st : State) (dev : bool) (position : nat)
    (amountText categoryChoice : string) (pickedDate : Z) (noteText : string) :
  NoDup (map id (transactions st)) ->
  let st' := gesture parseFloat trim dev
               (SubmitEdit position amountText categoryChoice pickedDate noteText) st in
  Permutation (map identity (transactions st')) (map identity (transactions st))
  /\ forall t, nth_error (transactions st) position = Some t ->
       forall x, id x <> id t -> (In x (transactions st') <-> In x (transactions st)).
Proof.
  intros Hnd st'. subst st'. cbn [gesture].
  destruct (nth_error (transactions st) position) as [t|] eqn:Et;
    [|split; [apply Permutation_refl | discriminate]].
  unfold EditModal_handleSave.
  destruct (invalidAmount (parseAmount parseFloat amountText));
    [split; [apply Permutation_refl | reflexivity]|].
  cbn [id]. destruct dev.
  - rewrite updateTransaction_written. split.
    + eapply perm_trans; [apply Permutation_map, sortByDateDesc_perm|].
      rewrite updated_identity; [apply Permutation_refl | exact Hnd | | reflexivity].
      exact (nth_error_In _ _ Et).
    + intros t' [= <-] x Hx. rewrite sortByDateDesc_In, updated_In. split.
      * intros [[-> _] | [H _]]; [contradiction Hx; reflexivity | exact H].
      * intros H. right. split; assumption.
  - rewrite updateTransaction_refused. split; [apply Permutation_refl | reflexivity].
Qed.

Lemma gesture_ids_add b dev k a c d n now st :
  b <= now ->
  (NoDup (map id (transactions st)) /\ Forall (fun x => id x < b) (transactions st))
  /\ (forall l, persisted st = Some l ->
      NoDup (map id l) /\ Forall (fun x => id x < b) l) ->
  let st' := gesture parseFloat trim dev (SubmitAdd k a c d n now) st in
  (NoDup (map id (transactions st'))
   /\ Forall (fun x => id x < now + 1) (transactions st'))
  /\ (forall l, persisted st' = Some l ->
      NoDup (map id l) /\ Forall (fun x => id x < now + 1) l).
Proof.
  intros Hnow H st'. subst st'. cbn [gesture].
  assert (H1 : (NoDup (map id (transactions st))
                 /\ Forall (fun x => id x < now + 1) (transactions st))
               /\ (forall l, persisted st = Some l ->
                   NoDup (map id l) /\ Forall (fun x => id x < now + 1) l)).
  { destruct H as [Hm Hp]. split.
    - apply (ids_below_le b); [lia | exact Hm].
    - intros l Hl. apply (ids_below_le b); [lia | exact (Hp l Hl)]. }
  unfold AddModal_handleSave.
  destruct (invalidAmount (parseAmount parseFloat a)); [exact H1|].
  apply (perform_list_property
           (fun l => NoDup (map id l) /\ Forall (fun x => id x < now + 1) l)
           dev (Add now _) st); [apply ids_below_perm | | exact H1].
  destruct H as [[Hnd Hb] _]. cbn [attempted map withId with_id_pinned id]. split.
  - constructor; [|exact Hnd]. intros Hin. apply in_map_iff in Hin.
    destruct Hin as [x [Ex Hx]]. rewrite Forall_forall in Hb.
    specialize (Hb x Hx). lia.
  - constructor; [cbn; lia|]. eapply Forall_impl; [|exact Hb]. cbn. intros x Hx. lia.
Qed.

Lemma gesture_ids_other b dev g st :
  clockReadings [(dev, g)] = [] ->
  (NoDup (map id (transactions st)) /\ Forall (fun x => id x < b) (transactions st))
  /\ (forall l, persisted st = Some l ->
      NoDup (map id l) /\ Forall (fun x => id x < b) l) ->
  let st' := gesture parseFloat trim dev g st in
  (NoDup (map id (transactions st')) /\ Forall (fun x => id x < b) (transactions st'))
  /\ (forall l, persisted st' = Some l ->
      NoDup (map id l) /\ Forall (fun x => id x < b) l).
Proof.
  intros Hg H st'. subst st'.
  destruct g as [k a c d n now | pos a c d n | pos confirmed | | devTheme];
    cbn [gesture]; [discriminate Hg | | | |].
  - destruct (nth_error (transactions st) pos) as [t|] eqn:Et; [|exact H].
    unfold EditModal_handleSave.
    destruct (invalidAmount (parseAmount parseFloat a)); [exact H|].
    apply (perform_list_property
             (fun l => NoDup (map id l) /\ Forall (fun x => id x < b) l)
             dev (Update _ _) st); [apply ids_below_perm | | exact H].
    destruct H as [[Hnd Hb] _]. cbn [attempted id]. split.
    + rewrite updated_ids. exact Hnd.
    + apply updated_Forall; [|exact Hb]. cbn.
      rewrite Forall_forall in Hb. apply Hb, (nth_error_In _ _ Et).
  - destruct (nth_error (transactions st) pos) as [t|]; [|exact H].
    destruct confirmed; [|exact H].
    apply (perform_list_property
             (fun l => NoDup (map id l) /\ Forall (fun x => id x < b) l)
             dev (Delete _) st); [apply ids_below_perm | | exact H].
    destruct H as [[Hnd Hb] _]. cbn [attempted]. split.
    + apply NoDup_ids_filter, Hnd.
    + apply Forall_filter, Hb.
  - destruct (toggleTheme_keeps dev st) as [Ht Hs]. rewrite Ht, Hs. exact H.
  - apply (restart_list_property
             (fun l => NoDup (map id l) /\ Forall (fun x => id x < b) l));
      [apply ids_below_perm | split; constructor | apply ids_below_readBack
      | exact (proj2 H)].
Qed.

Lemma played_ids gs : forall b st,
  Forall (fun r => b <= r) (clockReadings gs) ->
  StronglySorted Z.lt (clockReadings gs) ->
  (NoDup (map id (transactions st)) /\ Forall (fun x => id x < b) (transactions st))
  /\ (forall l, persisted st = Some l ->
      NoDup (map id l) /\ Forall (fun x => id x < b) l) ->
  NoDup (map id (transactions (played parseFloat trim gs st)))
  /\ (forall l, persisted (played parseFloat trim gs st) = Some l -> NoDup (map id l)).
Proof.
  induction gs as [|[dev g] gs IH]; intros b st Hb Hs H.
  - cbn. split; [exact (proj1 (proj1 H))|].
    intros l Hl. exact (proj1 (proj2 H l Hl)).
  - cbn [played fold_left fst snd].
    destruct (clockReadings [(dev, g)]) as [|r rest] eqn:Er.
    + assert (E : clockReadings ((dev, g) :: gs) = clockReadings gs).
      { destruct g; cbn in Er |- *; try reflexivity. discriminate Er. }
      rewrite E in Hb, Hs.
      apply (IH b); [exact Hb | exact Hs |].
      apply gesture_ids_other; [exact Er | exact H].
    + destruct g as [k a c d n now| | | |]; cbn in Er; try discriminate Er.
      cbn [clockReadings] in Hb, Hs.
      inversion Hb as [|? ? Hnow _]; subst.
      inversion Hs as [|? ? Hs' Hlt]; subst.
      apply (IH (now + 1)); [| exact Hs' |].
      * eapply Forall_impl; [|exact Hlt]. cbn. intros x Hx. lia.
      * apply (gesture_ids_add b); [exact Hnow | exact H].
Qed.

(** X19. With a clock that moves forward between submitted Adds, ids stay
    unique: after any sequence of gestures on a fresh install in which each
    submitted Add reads a later clock value than the one before, no two
    transactions share an id, in memory and in storage, whatever the device
    answers. *)
Theorem forward_clock_keeps_ids_unique (gs : list (bool * Gesture)) :
  StronglySorted Z.lt (clockReadings gs) ->
  NoDup (map id (transactions (played parseFloat trim gs freshInstall)))
  /\ (forall l, persisted (played parseFloat trim gs freshInstall) = Some l ->
      NoDup (map id l)).
Proof.
  intros Hs.
  assert (H0 : forall b,
    (NoDup (map id (transactions freshInstall))
     /\ Forall (fun x => id x < b) (transactions freshInstall))
    /\ (forall l, persisted freshInstall = Some l ->
        NoDup (map id l) /\ Forall (fun x => id x < b) l)).
  { intros b. split; [split; constructor | discriminate]. }
  destruct (clockReadings gs) as [|r rest] eqn:Er.
  - apply (played_ids gs 0); [rewrite Er; constructor | rewrite Er; exact Hs | apply H0].
  - apply (played_ids gs r); [| rewrite Er; exact Hs | apply H0].
    rewrite Er. inversion Hs as [|? ? _ Hlt]; subst.
    constructor; [lia|]. eapply Forall_impl; [|exact Hlt]. cbn. intros x Hx. lia.
Qed.

Lemma gesture_reachable dev g st :
  reachable st -> reachable (gesture parseFloat trim dev g st).
Proof.
  intros Hr. destruct g as [k a c d n now | pos a c d n | pos confirmed | | devTheme];
    cbn [gesture].
  - destruct (AddModal_handleSave _ _ _ _ _ _ _); [exact Hr|].
    apply (reach_run st dev (Mutate (Add now _))), Hr.
  - destruct (nth_error (transactions st) pos) as [t|]; [|exact Hr].
    destruct (EditModal_handleSave _ _ _ _ _ _ _); [exact Hr|].
    apply (reach_run st dev (Mutate (Update _ _))), Hr.
  - destruct (nth_error (transactions st) pos) as [t|]; [|exact Hr].
    destruct confirmed; [|exact Hr].
    apply (reach_run st dev (Mutate (Delete _))), Hr.
  - apply (reach_run st dev ToggleTheme), Hr.
  - rewrite restart_unfold.
    apply (reach_run _ devTheme LoadTheme), (reach_run _ dev LoadTransactions).
    apply reach_restart, Hr.
Qed.

Lemma played_reachable gs st :
  reachable st -> reachable (played parseFloat trim gs st).
Proof.
  revert st. induction gs as [|[dev g] gs IH]; intros st Hr; [exact Hr|].
  apply IH, gesture_reachable, Hr.
Qed.
End GestureFacts.

Lemma sampleGestures_clock : StronglySorted Z.lt (clockReadings sampleGestures).
Proof.
  cbn. repeat (constructor; [|repeat (constructor; [reflexivity|]); constructor]).
  constructor.
Qed.

Lemma edit_keeps_id_and_kind_witness :
  NoDup (map id (transactions twoEntries))
  /\ Permutation
       (map identity
            (transactions (gesture sampleParseFloat asciiTrim true
                             (SubmitEdit 1 "12,50" "Sonstiges" 1700000000000 " neu ")
                             twoEntries)))
       (map identity (transactions twoEntries)).
Proof.
  split; [exact twoEntries_unique|].
  exact (proj1 (edit_keeps_id_and_kind sampleParseFloat asciiTrim twoEntries true 1
                  "12,50" "Sonstiges" 1700000000000 " neu " twoEntries_unique)).
Defined.

Lemma forward_clock_keeps_ids_unique_witness :
  StronglySorted Z.lt (clockReadings sampleGestures)
  /\ NoDup (map id (transactions
                      (played sampleParseFloat asciiTrim sampleGestures freshInstall))).
Proof.
  split; [exact sampleGestures_clock|].
  exact (proj1 (forward_clock_keeps_ids_unique sampleParseFloat asciiTrim
                  sampleGestures sampleGestures_clock)).
Defined.

Example sampleGestures_played :
  map (fun t => (id t, category t, note t))
      (transactions (played sampleParseFloat asciiTrim sampleGestures freshInstall))
  = [ (1700000000456, "Bargeld", Some "");
      (1700000000123, "Sonstiges", Some "neu") ].
Proof. reflexivity. Qed.

(** * Properties of the amount formatting *)

Lemma string_of_uint_allDigits (d : Decimal.uint) :
  allDigits (NilEmpty.string_of_uint d) = true.
Proof. induction d; cbn; try reflexivity; exact IHd. Qed.

Lemma decimalDigits_shape (n : Z) :
  allDigits (decimalDigits n) = true /\ decimalDigits n <> EmptyString.
Proof.
  unfold decimalDigits, NilZero.string_of_uint.
  destruct (N.to_uint (Z.to_N n)) as [|d|d|d|d|d|d|d|d|d|d] eqn:E;
    (split; [try reflexivity; apply (string_of_uint_allDigits (_ d)) | discriminate])
    || (split; [reflexivity | discriminate]).
Qed.

Lemma digitChar_isDigit (d : Z) : 0 <= d <= 9 -> isDigit (digitChar d) = true.
Proof.
  intros H.
  assert (E : d = 0 \/ d = 1 \/ d = 2 \/ d = 3 \/ d = 4 \/ d = 5 \/ d = 6
              \/ d = 7 \/ d = 8 \/ d = 9) by lia.
  repeat (destruct E as [-> | E]; [reflexivity|]). subst d. reflexivity.
Qed.

Lemma digit_is_not_point (c : ascii) : isDigit c = true -> Ascii.eqb c "." = false.
Proof.
  destruct c as [[] [] [] [] [] [] [] []]; intros H; try reflexivity; discriminate H.
Qed.

Lemma replace_first_after_digits (a b : string) :
  allDigits a = true ->
  replace_first "." "," (a ++ b) = (a ++ replace_first "." "," b)%string.
Proof.
  induction a as [|c a IH]; intros H; [reflexivity|].
  cbn in H. apply andb_true_iff in H. destruct H as [Hc Ha].
  cbn [append replace_first]. rewrite (digit_is_not_point c Hc), (IH Ha). reflexivity.
Qed.

Lemma finite_Prim2SF (x : float) :
  PrimFloat.is_finite x = true ->
  Prim2SF x <> S754_nan /\ forall s, Prim2SF x <> S754_infinity s.
Proof.
  unfold PrimFloat.is_finite, Prim2SF. intros H.
  apply negb_true_iff, orb_false_iff in H. destruct H as [Hn Hi].
  rewrite Hn, Hi. destruct (is_zero x); [split; [|intros s]; discriminate|].
  destruct (Z.frexp x) as [r ex].
  destruct (shr_fexp _ _ _ _ _) as [shr e'].
  destruct (shr_m shr); split; try intros s; discriminate.
Qed.

Lemma Prim2SF_finite_is_finite (x : float) s m e :
  Prim2SF x = S754_finite s m e -> PrimFloat.is_finite x = true.
Proof.
  unfold PrimFloat.is_finite, Prim2SF.
  destruct (is_nan x); [discriminate|].
  destruct (is_zero x); [discriminate|].
  destruct (is_infinity x); [discriminate|]. reflexivity.
Qed.

Lemma comma_after (sign whole dd : string) :
  (sign = EmptyString \/ sign = "-"%string) -> allDigits whole = true ->
  replace_first "." "," (sign ++ whole ++ "." ++ dd)
  = (sign ++ whole ++ "," ++ dd)%string.
Proof.
  intros [-> | ->] Hw; cbn [append replace_first Ascii.eqb Bool.eqb].
  - rewrite replace_first_after_digits by exact Hw. reflexivity.
  - rewrite replace_first_after_digits by exact Hw. reflexivity.
Qed.

(** X20. [eur] prints every amount with exactly two digits after a decimal
    comma and at least one digit before it, a minus sign in front if the
    number is negative, all after the currency prefix.  A value that is not
    a finite number prints as zero.  Only finite numbers of magnitude
    [10^21] or more fall outside this format. *)
Theorem eur_two_decimals (x : float) :
  (PrimFloat.is_finite x = false -> eur x = Some (currencyPrefix ++ "0,00")%string)
  /\ (forall s, eur x = Some s ->
      exists sign whole d1 d2,
        s = (currencyPrefix ++ sign ++ whole ++ ","
             ++ String d1 (String d2 EmptyString))%string
        /\ (sign = EmptyString \/ sign = "-"%string)
        /\ whole <> EmptyString /\ allDigits whole = true
        /\ isDigit d1 = true /\ isDigit d2 = true)
  /\ (eur x = None ->
      exists s m e, Prim2SF x = S754_finite s m e /\ atLeast1e21 m e = true).
Proof.
  split; [|split].
  - intros H. unfold eur. rewrite H. reflexivity.
  - intros s. unfold eur.
    destruct (PrimFloat.is_finite x) eqn:Hf.
    + unfold toFixed2. destruct (finite_Prim2SF x Hf) as [Hnan Hinf].
      destruct (Prim2SF x) as [z|z| |sg m e].
      * intros [= <-]. exists EmptyString, "0"%string, "0"%char, "0"%char.
        repeat split; try reflexivity; [left; reflexivity | discriminate].
      * contradiction (Hinf z). reflexivity.
      * contradiction Hnan. reflexivity.
      * destruct (atLeast1e21 m e); [discriminate|].
        cbn [option_map]. intros H.
        destruct (decimalDigits_shape (hundredths m e / 100)) as [Hd Hne].
        pose proof (Z.mod_pos_bound (hundredths m e) 100 ltac:(lia)) as Hr.
        rewrite comma_after in H;
          [| destruct sg; [right|left]; reflexivity | exact Hd].
        exists (if sg then "-"%string else EmptyString),
               (decimalDigits (hundredths m e / 100)),
               (digitChar ((hundredths m e mod 100) / 10)),
               (digitChar ((hundredths m e mod 100) mod 10)).
        split; [|split; [|split; [|split; [|split]]]].
        -- unfold twoDigits in H. congruence.
        -- destruct sg; [right | left]; reflexivity.
        -- exact Hne.
        -- exact Hd.
        -- apply digitChar_isDigit.
           split; [apply Z.div_pos; lia | apply Z.lt_succ_r, Z.div_lt_upper_bound; lia].
        -- apply digitChar_isDigit.
           pose proof (Z.mod_pos_bound (hundredths m e mod 100) 10 ltac:(lia)). lia.
    + intros [= <-]. exists EmptyString, "0"%string, "0"%char, "0"%char.
      repeat split; try reflexivity; [left; reflexivity | discriminate].
  - unfold eur. destruct (PrimFloat.is_finite x) eqn:Hf.
    + unfold toFixed2. destruct (Prim2SF x) as [z|z| |sg m e]; try discriminate.
      destruct (atLeast1e21 m e) eqn:E; [|discriminate].
      intros _. exists sg, m, e. split; [reflexivity | exact E].
    + discriminate.
Qed.

Lemma hundredths_nearest (m : positive) (e : Z) :
  (0 <= e -> hundredths m e = 100 * Zpos m * 2 ^ e)
  /\ (e < 0 -> - 2 ^ (- e) <= 200 * Zpos m - hundredths m e * 2 ^ (1 - e) < 2 ^ (- e)).
Proof.
  unfold hundredths. split; intros He.
  - destruct (Z.leb_spec 0 e); [reflexivity | lia].
  - destruct (Z.leb_spec 0 e); [lia|].
    assert (Hk : 0 < 2 ^ (- e)) by (apply Z.pow_pos_nonneg; lia).
    assert (HD : 2 ^ (1 - e) = 2 * 2 ^ (- e)).
    { replace (1 - e) with (Z.succ (- e)) by lia. apply Z.pow_succ_r. lia. }
    rewrite HD.
    pose proof (Z.div_mod (200 * Zpos m + 2 ^ (- e)) (2 * 2 ^ (- e)) ltac:(lia)) as Hdm.
    pose proof (Z.mod_pos_bound (200 * Zpos m + 2 ^ (- e)) (2 * 2 ^ (- e)) ltac:(lia))
      as Hr.
    lia.
Qed.

(** X21. The amount [eur] prints is the nearest number of cents: for a
    finite number of magnitude [m * 2^e] below [10^21], the digits printed
    are those of the integer [n] with [n] cents nearest to the magnitude,
    the larger [n] when the magnitude lies exactly between two. *)
Theorem eur_rounds_to_nearest_cent (x : float) (s : bool) (m : positive) (e : Z) :
  Prim2SF x = S754_finite s m e ->
  atLeast1e21 m e = false ->
  exists n,
    eur x = Some (currencyPrefix ++ (if s then "-" else "")
                  ++ decimalDigits (n / 100) ++ "," ++ twoDigits (n mod 100))%string
    /\ (0 <= e -> n = 100 * Zpos m * 2 ^ e)
    /\ (e < 0 -> - 2 ^ (- e) <= 200 * Zpos m - n * 2 ^ (1 - e) < 2 ^ (- e)).
Proof.
  intros Hx Hsmall. exists (hundredths m e).
  split; [|apply hundredths_nearest].
  unfold eur. rewrite (Prim2SF_finite_is_finite x s m e Hx).
  unfold toFixed2. rewrite Hx, Hsmall. cbn [option_map]. do 2 f_equal.
  apply comma_after.
  - destruct s; [right | left]; reflexivity.
  - apply decimalDigits_shape.
Qed.

Lemma eur_rounds_to_nearest_cent_witness :
  Prim2SF 0.125%float = S754_finite false 4503599627370496 (-55)
  /\ atLeast1e21 4503599627370496 (-55) = false
  /\ exists n, eur 0.125%float
               = Some (currencyPrefix ++ decimalDigits (n / 100) ++ ","
                       ++ twoDigits (n mod 100))%string.
Proof.
  assert (Hx : Prim2SF 0.125%float = S754_finite false 4503599627370496 (-55))
    by reflexivity.
  assert (Hs : atLeast1e21 4503599627370496 (-55) = false) by reflexivity.
  split; [exact Hx|]. split; [exact Hs|].
  destruct (eur_rounds_to_nearest_cent 0.125%float false 4503599627370496 (-55) Hx Hs)
    as [n [Hn _]].
  exists n. exact Hn.
Defined.

Example eur_samples :
  eur 50%float = Some (currencyPrefix ++ "50,00")%string
  /\ eur 12.5%float = Some (currencyPrefix ++ "12,50")%string
  /\ eur 0.125%float = Some (currencyPrefix ++ "0,13")%string
  /\ eur (-20)%float = Some (currencyPrefix ++ "-20,00")%string
  /\ eur nan = Some (currencyPrefix ++ "0,00")%string
  /\ eur infinity = Some (currencyPrefix ++ "0,00")%string.
Proof. repeat split; vm_compute; reflexivity. Qed.

(** * Failures and keys *)


(** X23. Of all the functions of the provider only [toggleTheme] can end
    rejected, and it does so exactly when its write is refused: the loads
    and the three mutating operations catch every failure. *)
Theorem only_toggleTheme_rejects (dev : bool) (c : Command) (st : State) :
  (c <> ToggleTheme -> outcome (run dev c) st = Fulfilled tt)
  /\ (outcome (run dev ToggleTheme) st = Fulfilled tt <-> dev = true).
Proof.
  split.
  - intros Hc. destruct c as [m| | |]; cbn [run].
    + apply perform_fulfilled.
    + apply loadTransactions_fulfilled.
    + apply loadTheme_fulfilled.
    + contradiction Hc. reflexivity.
  - cbn [run]. destruct dev; split; intros H; try reflexivity; discriminate H.
Qed.

(** X24. The collection and the theme are stored independently: a mutating
    operation changes no key of the storage other than ['transactions'],
    the theme toggle changes none other than ['theme'], and the two loads
    change no key at all, whatever the device answers. *)
Theorem stored_keys_are_independent (dev : bool) (c : Command) (st : State) :
  match c with
  | Mutate _ =>
      forall k, k <> "transactions" -> storage (exec (run dev c) st) k = storage st k
  | ToggleTheme =>
      forall k, k <> "theme" -> storage (exec (run dev c) st) k = storage st k
  | LoadTransactions | LoadTheme =>
      forall k, storage (exec (run dev c) st) k = storage st k
  end.
Proof.
  destruct c as [m| | |]; cbn [run].
  - intros k Hk. destruct dev.
    + rewrite perform_written. cbn. unfold store.
      apply String.eqb_neq in Hk. rewrite Hk. reflexivity.
    + rewrite perform_refused. reflexivity.
  - intros k. rewrite (proj1 (loadTransactions_read dev st)). reflexivity.
  - intros k. rewrite (proj2 (loadTheme_keeps dev st)). reflexivity.
  - intros k Hk. unfold exec, toggleTheme, bind, setItem. cbn.
    destruct dev; cbn; [|reflexivity].
    unfold store. apply String.eqb_neq in Hk. rewrite Hk. reflexivity.
Qed.

Lemma stored_keys_are_independent_witness :
  "theme" <> "transactions"
  /\ storage (exec (run true (Mutate (Delete 1700000000123))) twoEntries) "theme"
     = storage twoEntries "theme"
  /\ storage (exec (run true LoadTransactions) twoEntries) "transactions"
     = storage twoEntries "transactions".
Proof.
  assert (H : "theme" <> "transactions") by discriminate.
  split; [exact H|]. split.
  - exact (stored_keys_are_independent true (Mutate (Delete 1700000000123))
             twoEntries "theme" H).
  - exact (stored_keys_are_independent true LoadTransactions twoEntries "transactions").
Defined.

(** An amount beyond the range of numbers passes the check of the modal as
    [Infinity]; it is written as [null] and reads back as [null]. *)
Example infinite_amount_reads_back_null :
  let entry := (true, SubmitAdd true "1e999" "GoFundMe" 1700000000000 "" 1700000000123) in
  map amount (transactions (played sampleParseFloat asciiTrim [entry] freshInstall))
  = [Num infinity]
  /\ map amount (transactions (played sampleParseFloat asciiTrim
                                 [entry; (true, Relaunch true)] freshInstall))
     = [Null].
Proof. split; reflexivity. Qed.

(** A stored [null] counts as zero in the totals. *)
Example null_amount_in_totals :
  totalIncome [ readBack (gift infinity); gift 12.5%float ] = 12.5%float.
Proof. reflexivity. Qed.
